(** * lehnert-db (package ldb): identifiers, field types, snapshots and
      the DuckDB reconciliation, embedded from the Go sources.

    Go values are modelled as follows.
    - [string] is a byte sequence; [len] is [String.length].
    - [any] is a closed sum of the dynamic types the package inspects.
    - [error] is its message; the nil error is [None].
    - a pointer is [option nat]: [None] is nil, [Some l] an address in the
      store of its type; dereferencing nil is a run-time panic.
    - a [func() T] field is [option (unit -> T)]: [None] is the nil func. *)

From Stdlib Require Import ZArith String Ascii HexString DecimalString PrimFloat.
From stdpp Require Import base list strings gmap.

Local Open Scope Z_scope.

(* ===================================================================== *)
(** ** Go library functions used by the package                          *)
(* ===================================================================== *)

(** [error]: [fmt.Errorf] builds an error out of its formatted message. *)
Definition error := option string.

(** A computation that may end in a run-time panic. *)
Inductive Run (A : Type) : Type :=
| Done (a : A)
| Panic.
Arguments Done {A} a.
Arguments Panic {A}.

Definition run_bind {A B} (m : Run A) (k : A -> Run B) : Run B :=
  match m with
  | Done a => k a
  | Panic => Panic
  end.

(** [time.Time], as an instant on the nanosecond time line. *)
Definition Time := Z.
Definition Time_Before (d u : Time) : bool := d <? u.
Definition Time_After (d u : Time) : bool := d >? u.

(** The dynamic values behind [any]. [pstring_any] is a [*string];
    [other_any] stands for every dynamic type the package never asserts. *)
Inductive any : Type :=
| nil_any
| string_any (s : string)
| int64_any (i : Z)
| float64_any (f : float)
| bool_any (b : bool)
| Time_any (t : Time)
| pstring_any (p : option string)
| other_any (tag : nat).

(** [%v] of an [int]. *)
Definition fmt_v_int (n : Z) : string := NilZero.string_of_int (Z.to_int n).

(** Signed 64-bit wrap-around of Go's [int64] arithmetic. *)
Definition int64_wrap (z : Z) : Z := (z + 2 ^ 63) mod 2 ^ 64 - 2 ^ 63.

(** [%x] of an [int64]: lower-case digits, no padding, a sign for negatives. *)
Definition fmt_x_int64 (z : Z) : string :=
  match z with
  | Z0 => "0"
  | Zpos p => HexString.Raw.of_pos p ""
  | Zneg p => String "-" (HexString.Raw.of_pos p "")
  end.

Definition hex_digit (n : N) : ascii :=
  match n with
  | 0 => "0" | 1 => "1" | 2 => "2" | 3 => "3" | 4 => "4" | 5 => "5"
  | 6 => "6" | 7 => "7" | 8 => "8" | 9 => "9" | 10 => "a" | 11 => "b"
  | 12 => "c" | 13 => "d" | 14 => "e" | _ => "f"
  end%N%char.

(** [%x] of a [[]byte]: two lower-case digits per byte. *)
Fixpoint fmt_x_bytes (bs : list Byte.byte) : string :=
  match bs with
  | [] => ""
  | b :: bs' =>
      let n := Byte.to_N b in
      String (hex_digit (n / 16)) (String (hex_digit (n mod 16)) (fmt_x_bytes bs'))
  end.

(** [strings.ToLower]. On ASCII bytes it maps [A-Z] to [a-z]. A string with
    bytes above 0x7f is lower-cased rune by rune by Go; none of those runes
    lower-cases into [0-9a-f] (the only ones reaching ASCII give "i" and
    "k"), so leaving such bytes in place keeps every verdict of [ValidateId]. *)
Definition lower_byte (c : ascii) : ascii :=
  let n := N_of_ascii c in
  if ((65 <=? n) && (n <=? 90))%N then ascii_of_N (n + 32) else c.

Fixpoint ToLower (s : string) : string :=
  match s with
  | EmptyString => EmptyString
  | String c s' => String (lower_byte c) (ToLower s')
  end.

Fixpoint in_cutset (c : ascii) (cutset : string) : bool :=
  match cutset with
  | EmptyString => false
  | String d cutset' => if Ascii.eqb c d then true else in_cutset c cutset'
  end.

Fixpoint TrimLeft (s cutset : string) : string :=
  match s with
  | EmptyString => EmptyString
  | String c s' => if in_cutset c cutset then TrimLeft s' cutset else s
  end.

(** Drops the trailing bytes of [s] that belong to [cutset]. *)
Fixpoint TrimRight (s cutset : string) : string :=
  match s with
  | EmptyString => EmptyString
  | String c s' =>
      match TrimRight s' cutset with
      | EmptyString => if in_cutset c cutset then EmptyString else String c EmptyString
      | t => String c t
      end
  end.

(** [strings.Trim] with an ASCII cutset: leading, then trailing bytes. *)
Definition Trim (s cutset : string) : string := TrimRight (TrimLeft s cutset) cutset.

(** [strings.Join]. *)
Fixpoint Join (elems : list string) (sep : string) : string :=
  match elems with
  | [] => ""
  | [e] => e
  | e :: rest => e +:+ sep +:+ Join rest sep
  end.

(** [slices.Contains] on strings. *)
Fixpoint Contains (s : list string) (v : string) : bool :=
  match s with
  | [] => false
  | x :: s' => if String.eqb x v then true else Contains s' v
  end.

(* ===================================================================== *)
(** ** Identifiers (GenerateId, ValidateId)                               *)
(* ===================================================================== *)

(** [GenerateId]. Its two inputs from the outside world are the reading of
    [time.Now().UnixMilli()] and the eight bytes [rand.Read] fills in. *)
Definition GenerateId (UnixMilli : Z) (entropy : list Byte.byte) : string :=
  let timestamp := int64_wrap (UnixMilli * 1000) in
  fmt_x_int64 timestamp +:+ fmt_x_bytes entropy.

Definition requiredLen : nat := 31.

Definition ValidateId (value : any) : error :=
  match value with
  | string_any str =>
      if negb (String.length str =? requiredLen)%nat then
        Some ("invalid id, expected string of length " +:+ fmt_v_int (Z.of_nat requiredLen))
      else
        let str := ToLower str in
        if negb (String.length (Trim str "0123456789abcdef") =? 0)%nat then
          Some "invalid id, expcted hex string"
        else None
  | _ => Some "invalid id, expected string value"
  end.

(* ===================================================================== *)
(** ** Field type catalog                                                 *)
(* ===================================================================== *)

Definition validateNullable (nullable : bool) (value : any) : error :=
  match value with
  | nil_any => if negb nullable then Some "invalid value, expected non-null" else None
  | _ => None
  end.

Module FieldTypeId.
Record t := mk {
  Nullable : bool;
  PrimaryKey : bool;
  CreateDefaultValue : option (unit -> string)
}.

Definition Clone (ft : t) : t := ft.

Definition ValidateValue (fieldType : t) (value : any) : any * error :=
  match validateNullable (Nullable fieldType || PrimaryKey fieldType) value with
  | Some err => (nil_any, Some err)
  | None =>
      match value with
      | nil_any => (nil_any, None)
      | _ =>
          match ValidateId value with
          | Some err => (nil_any, Some err)
          | None => (value, None)
          end
      end
  end.
End FieldTypeId.

Module FieldTypeText.
Record t := mk {
  Nullable : bool;
  CreateDefaultValue : option (unit -> string);
  CreateMaxLength : option (unit -> Z);
  CreateMinLength : option (unit -> Z);
  CreatePattern : option (unit -> string)
}.

Definition Clone (ft : t) : t := ft.

Section Validate.
(** [regexp.MatchString pattern s]: whether [s] matches, and the error of
    a pattern that does not compile. *)
Variable regexp_MatchString : string -> string -> bool * error.

Definition check_pattern (fieldType : t) (str : string) : any * error :=
  match CreatePattern fieldType with
  | Some f =>
      let pattern := f tt in
      match snd (regexp_MatchString pattern str) with
      | Some _ =>
          (nil_any, Some ("value does not match pattern, pattern is " +:+ pattern))
      | None => (string_any str, None)
      end
  | None => (string_any str, None)
  end.

Definition check_max (fieldType : t) (str : string) : any * error :=
  match CreateMaxLength fieldType with
  | Some f =>
      let maxLength := f tt in
      if Z.of_nat (String.length str) >? maxLength then
        (nil_any, Some ("value too long, max length is " +:+ fmt_v_int maxLength))
      else check_pattern fieldType str
  | None => check_pattern fieldType str
  end.

Definition check_min (fieldType : t) (str : string) : any * error :=
  match CreateMinLength fieldType with
  | Some f =>
      let minLength := f tt in
      if Z.of_nat (String.length str) <? minLength then
        (nil_any, Some ("value too short, min length is " +:+ fmt_v_int minLength))
      else check_max fieldType str
  | None => check_max fieldType str
  end.

Definition ValidateValue (fieldType : t) (value : any) : any * error :=
  match validateNullable (Nullable fieldType) value with
  | Some err => (nil_any, Some err)
  | None =>
      match value with
      | nil_any =>
          match CreateDefaultValue fieldType with
          | Some f => (string_any (f tt), None)
          | None => (nil_any, None)
          end
      | string_any str => check_min fieldType str
      | _ => (nil_any, Some "invalid value, expected string")
      end
  end.
End Validate.
End FieldTypeText.

Module FieldTypeInt.
Record t := mk {
  Nullable : bool;
  CreateDefaultValue : option (unit -> Z);
  CreateMinValue : option (unit -> Z);
  CreateMaxValue : option (unit -> Z)
}.

Definition Clone (ft : t) : t := ft.

Definition check_max (fieldType : t) (i : Z) : any * error :=
  match CreateMaxValue fieldType with
  | Some f =>
      let maxValue := f tt in
      if i >? maxValue then
        (nil_any, Some ("value too big, max value is " +:+ fmt_v_int maxValue))
      else (int64_any i, None)
  | None => (int64_any i, None)
  end.

Definition ValidateValue (fieldType : t) (value : any) : any * error :=
  match validateNullable (Nullable fieldType) value with
  | Some err => (nil_any, Some err)
  | None =>
      match value with
      | nil_any =>
          match CreateDefaultValue fieldType with
          | Some f => (int64_any (f tt), None)
          | None => (nil_any, None)
          end
      | int64_any i =>
          match CreateMinValue fieldType with
          | Some f =>
              let minValue := f tt in
              if i <? minValue then
                (nil_any, Some ("value too small, min value is " +:+ fmt_v_int minValue))
              else check_max fieldType i
          | None => check_max fieldType i
          end
      | _ => (nil_any, Some "invalid value, expected integer")
      end
  end.
End FieldTypeInt.

Module FieldTypeFloat.
Record t := mk {
  Nullable : bool;
  CreateDefaultValue : option (unit -> float);
  CreateMinValue : option (unit -> float);
  CreateMaxValue : option (unit -> float)
}.

Definition Clone (ft : t) : t := ft.

Section Validate.
(** [%v] of a [float64]. *)
Variable fmt_v_float64 : float -> string.

Definition check_max (fieldType : t) (f : float) : any * error :=
  match CreateMaxValue fieldType with
  | Some g =>
      let maxValue := g tt in
      if PrimFloat.ltb maxValue f then
        (nil_any, Some ("value too big, max value is " +:+ fmt_v_float64 maxValue))
      else (float64_any f, None)
  | None => (float64_any f, None)
  end.

Definition ValidateValue (fieldType : t) (value : any) : any * error :=
  match validateNullable (Nullable fieldType) value with
  | Some err => (nil_any, Some err)
  | None =>
      match value with
      | nil_any =>
          match CreateDefaultValue fieldType with
          | Some g => (float64_any (g tt), None)
          | None => (nil_any, None)
          end
      | float64_any f =>
          match CreateMinValue fieldType with
          | Some g =>
              let minValue := g tt in
              if PrimFloat.ltb f minValue then
                (nil_any, Some ("value too small, min value is " +:+ fmt_v_float64 minValue))
              else check_max fieldType f
          | None => check_max fieldType f
          end
      | _ => (nil_any, Some "invalid value, expected float")
      end
  end.
End Validate.
End FieldTypeFloat.

Module FieldTypeBool.
Record t := mk {
  Nullable : bool;
  CreateDefaultValue : option (unit -> bool)
}.

Definition Clone (ft : t) : t := ft.

Definition ValidateValue (fieldType : t) (value : any) : any * error :=
  match validateNullable (Nullable fieldType) value with
  | Some err => (nil_any, Some err)
  | None =>
      match value with
      | nil_any =>
          match CreateDefaultValue fieldType with
          | Some g => (bool_any (g tt), None)
          | None => (nil_any, None)
          end
      | bool_any b => (bool_any b, None)
      | _ => (nil_any, Some "invalid value, expected bool")
      end
  end.
End FieldTypeBool.

Module FieldTypeDateTime.
Record t := mk {
  Nullable : bool;
  CreateDefaultValue : option (unit -> Time);
  CreateMinValue : option (unit -> Time);
  CreateMaxValue : option (unit -> Time)
}.

Definition Clone (ft : t) : t := ft.

Section Validate.
(** [time.Parse] and [Time.Format], both at the layout [time.RFC3339]. *)
Variable time_Parse : string -> option Time.
Variable time_Format : Time -> string.

Definition check_max (fieldType : t) (d : Time) : any * error :=
  match CreateMaxValue fieldType with
  | Some g =>
      let maxValue := g tt in
      if Time_After d maxValue then
        (nil_any, Some ("value too late, max value is " +:+ time_Format d))
      else (Time_any d, None)
  | None => (Time_any d, None)
  end.

Definition check_min (fieldType : t) (d : Time) : any * error :=
  match CreateMinValue fieldType with
  | Some g =>
      let minValue := g tt in
      if Time_Before d minValue then
        (nil_any, Some ("value too early, min value is " +:+ time_Format d))
      else check_max fieldType d
  | None => check_max fieldType d
  end.

Definition ValidateValue (fieldType : t) (value : any) : any * error :=
  match validateNullable (Nullable fieldType) value with
  | Some err => (nil_any, Some err)
  | None =>
      match value with
      | nil_any =>
          match CreateDefaultValue fieldType with
          | Some g => (Time_any (g tt), None)
          | None => (nil_any, None)
          end
      | Time_any d => check_min fieldType d
      | _ =>
          let str := match value with string_any s => s | _ => "" end in
          match time_Parse str with
          | Some d => check_min fieldType d
          | None =>
              (nil_any,
               Some "invalid value, expected datetime or RFC-3339 datetime string")
          end
      end
  end.
End Validate.
End FieldTypeDateTime.

Module FieldTypeEnum.
Record t := mk {
  Nullable : bool;
  EnumValues : list string;
  CreateDefaultValue : option (unit -> string)
}.

(** [make] and [copy] give the clone a slice of its own with the same
    elements; as a value that is the same list. *)
Definition Clone (ft : t) : t :=
  let values := EnumValues ft in
  mk (Nullable ft) (take (length values) values) (CreateDefaultValue ft).

Definition validate_input (fieldType : t) (defaultValue : string) (value : any)
  : any * error :=
  match validateNullable (Nullable fieldType) value with
  | Some err => (nil_any, Some err)
  | None =>
      let mismatch :=
        (nil_any,
         Some ("invalid value, expected one of [" +:+ Join (EnumValues fieldType) ", " +:+ "]"))
      in
      match value with
      | nil_any =>
          if (0 <? String.length defaultValue)%nat then (string_any defaultValue, None)
          else (nil_any, None)
      | string_any str =>
          if negb (Contains (EnumValues fieldType) str) then mismatch
          else (string_any str, None)
      | _ => mismatch
      end
  end.

Definition ValidateValue (fieldType : t) (value : any) : any * error :=
  match CreateDefaultValue fieldType with
  | Some g =>
      let defaultValue := g tt in
      if negb (Contains (EnumValues fieldType) defaultValue) then
        (nil_any, Some "configuration error, invalid default value")
      else validate_input fieldType defaultValue value
  | None => validate_input fieldType "" value
  end.
End FieldTypeEnum.

Module FieldTypeSingleRelation.
Record t := mk {
  Nullable : bool;
  Collection : string;
  CascadeDelete : bool
}.

Definition Clone (ft : t) : t := ft.

Definition ValidateValue (fieldType : t) (value : any) : any * error :=
  let idType := FieldTypeId.mk (Nullable fieldType) false None in
  FieldTypeId.ValidateValue idType value.
End FieldTypeSingleRelation.

(** The [FieldType] interface over the catalog. *)
Inductive FieldType : Type :=
| Id (ft : FieldTypeId.t)
| Text (ft : FieldTypeText.t)
| Int (ft : FieldTypeInt.t)
| Float (ft : FieldTypeFloat.t)
| Bool (ft : FieldTypeBool.t)
| DateTime (ft : FieldTypeDateTime.t)
| Enum (ft : FieldTypeEnum.t)
| SingleRelation (ft : FieldTypeSingleRelation.t).

Definition FieldType_Clone (ft : FieldType) : FieldType :=
  match ft with
  | Id ft => Id (FieldTypeId.Clone ft)
  | Text ft => Text (FieldTypeText.Clone ft)
  | Int ft => Int (FieldTypeInt.Clone ft)
  | Float ft => Float (FieldTypeFloat.Clone ft)
  | Bool ft => Bool (FieldTypeBool.Clone ft)
  | DateTime ft => DateTime (FieldTypeDateTime.Clone ft)
  | Enum ft => Enum (FieldTypeEnum.Clone ft)
  | SingleRelation ft => SingleRelation (FieldTypeSingleRelation.Clone ft)
  end.

(** What the package takes from the Go library when validating. *)
Record GoLib := {
  regexp_MatchString : string -> string -> bool * error;
  fmt_v_float64 : float -> string;
  time_Parse : string -> option Time;
  time_Format : Time -> string
}.

(** Dynamic dispatch of [FieldType.ValidateValue]. *)
Definition FieldType_ValidateValue (lib : GoLib) (ft : FieldType) (value : any)
  : any * error :=
  match ft with
  | Id ft => FieldTypeId.ValidateValue ft value
  | Text ft => FieldTypeText.ValidateValue (regexp_MatchString lib) ft value
  | Int ft => FieldTypeInt.ValidateValue ft value
  | Float ft => FieldTypeFloat.ValidateValue (fmt_v_float64 lib) ft value
  | Bool ft => FieldTypeBool.ValidateValue ft value
  | DateTime ft => FieldTypeDateTime.ValidateValue (time_Parse lib) (time_Format lib) ft value
  | Enum ft => FieldTypeEnum.ValidateValue ft value
  | SingleRelation ft => FieldTypeSingleRelation.ValidateValue ft value
  end.

(** *** The earlier schema model: TextFieldType
    Its bounds and pattern are pointers; reading through a nil one panics. *)
Module TextFieldType.
Record t := mk {
  Nullable : bool;
  DefaultValue : option string;
  MaxLength : option Z;
  MinLength : option Z;
  Pattern : option string
}.

Section Validate.
Variable regexp_MatchString : string -> string -> bool * error.

Definition check_pattern (fieldType : t) (str : string) : Run (any * error) :=
  match Pattern fieldType with
  | Some pattern =>
      match snd (regexp_MatchString pattern str) with
      | Some _ =>
          Done (nil_any, Some ("value does not match pattern, pattern is " +:+ pattern))
      | None => Done (pstring_any (Some str), None)
      end
  | None => Done (pstring_any (Some str), None)
  end.

Definition check_min (fieldType : t) (str : string) : Run (any * error) :=
  match MinLength fieldType with
  | Some minLength =>
      match MaxLength fieldType with
      | Some maxLength =>
          if Z.of_nat (String.length str) <? maxLength then
            Done (nil_any, Some ("value too short, min length is " +:+ fmt_v_int minLength))
          else check_pattern fieldType str
      | None => Panic
      end
  | None => check_pattern fieldType str
  end.

Definition ValidateValue (fieldType : t) (value : any) : Run (any * error) :=
  match validateNullable (Nullable fieldType) value with
  | Some err => Done (nil_any, Some err)
  | None =>
      match value with
      | nil_any => Done (pstring_any (DefaultValue fieldType), None)
      | string_any str =>
          match MaxLength fieldType with
          | Some maxLength =>
              if Z.of_nat (String.length str) >? maxLength then
                Done (nil_any, Some ("value too long, max length is " +:+ fmt_v_int maxLength))
              else check_min fieldType str
          | None => check_min fieldType str
          end
      | _ => Done (nil_any, Some "invalid value, expected string")
      end
  end.
End Validate.
End TextFieldType.

(* ===================================================================== *)
(** ** Column definitions (DuckDB adapter)                                *)
(* ===================================================================== *)

Definition withNullConstraint (sql : string) (nullable : bool) : string :=
  if nullable then sql +:+ " NULL" else sql +:+ " NOT NULL".

(** [columnSQL]. The argument is the interface value held by a field schema:
    [None] is the nil interface, which falls to the panicking default case. *)
Definition columnSQL (column : string) (fieldType : option FieldType) : Run string :=
  match fieldType with
  | Some (Bool ft) =>
      Done (withNullConstraint (column +:+ " BOOL") (FieldTypeBool.Nullable ft))
  | Some (DateTime ft) =>
      Done (withNullConstraint (column +:+ " TIMESTAMP") (FieldTypeDateTime.Nullable ft))
  | Some (Enum ft) =>
      Done (withNullConstraint (column +:+ " TEXT") (FieldTypeEnum.Nullable ft))
  | Some (Float ft) =>
      Done (withNullConstraint (column +:+ " REAL") (FieldTypeFloat.Nullable ft))
  | Some (Id ft) =>
      let sql :=
        withNullConstraint (column +:+ " TEXT")
          (FieldTypeId.Nullable ft || FieldTypeId.PrimaryKey ft) in
      let sql := if FieldTypeId.PrimaryKey ft then sql +:+ " PRIMARY KEY" else sql in
      Done sql
  | Some (Int ft) =>
      Done (withNullConstraint (column +:+ " BIGINT") (FieldTypeInt.Nullable ft))
  | Some (SingleRelation ft) =>
      let sql := withNullConstraint (column +:+ " TEXT") (FieldTypeSingleRelation.Nullable ft) in
      let sql := sql +:+ " REFERENCES " +:+ FieldTypeSingleRelation.Collection ft +:+ "(id)" in
      let sql := if FieldTypeSingleRelation.CascadeDelete ft
                 then sql +:+ " ON DELETE CASCADE" else sql in
      Done sql
  | Some (Text ft) =>
      Done (withNullConstraint (column +:+ " TEXT") (FieldTypeText.Nullable ft))
  | None => Panic
  end.

(* ===================================================================== *)
(** ** Schema entities and their store                                    *)
(* ===================================================================== *)

Definition ptr := option nat.

Record FieldSchema := {
  FieldSchema_Type : option FieldType
}.

Record Field := {
  Field_original : ptr;
  Field_Name : string;
  Field_Schema : ptr
}.

(** [Fields] is the slice as the sequence of [*Field] it holds. *)
Record CollectionSchema := {
  Fields : list ptr;
  ViewFilter : option (unit -> bool);
  AllowCreate : option (unit -> bool);
  AllowUpdate : option (unit -> bool);
  AllowDelete : option (unit -> bool)
}.

Record Collection := {
  Collection_original : ptr;
  Collection_Name : string;
  Collection_Schema : ptr
}.

(** One store per pointed-to type; an address is an index. *)
Record Heap := {
  collections : list Collection;
  cschemas : list CollectionSchema;
  fields : list Field;
  fschemas : list FieldSchema
}.

Definition empty_heap : Heap := Build_Heap [] [] [] [].

(** Reading through a pointer. *)
Definition deref {A} (store : list A) (p : ptr) : Run A :=
  match p with
  | Some l => match store !! l with Some a => Done a | None => Panic end
  | None => Panic
  end.

(** Heap computations. *)
Definition Mem (A : Type) : Type := Heap -> Run (A * Heap).

Definition mem_ret {A} (a : A) : Mem A := fun h => Done (a, h).

Definition mem_bind {A B} (m : Mem A) (k : A -> Mem B) : Mem B :=
  fun h => match m h with Done (a, h') => k a h' | Panic => Panic end.

Declare Scope mem_scope.
Delimit Scope mem_scope with mem.
Notation "'let*' x ':=' m 'in' k" := (mem_bind m (fun x => k))
  (at level 10, x name, m at level 100, k at level 200) : mem_scope.

Definition mem_read {A} (store : Heap -> list A) (p : ptr) : Mem A :=
  fun h => match deref (store h) p with Done a => Done (a, h) | Panic => Panic end.

Definition new_Collection (c : Collection) : Mem ptr := fun h =>
  Done (Some (length (collections h)),
        Build_Heap (collections h ++ [c]) (cschemas h) (fields h) (fschemas h)).

Definition new_CollectionSchema (s : CollectionSchema) : Mem ptr := fun h =>
  Done (Some (length (cschemas h)),
        Build_Heap (collections h) (cschemas h ++ [s]) (fields h) (fschemas h)).

Definition new_Field (f : Field) : Mem ptr := fun h =>
  Done (Some (length (fields h)),
        Build_Heap (collections h) (cschemas h) (fields h ++ [f]) (fschemas h)).

Definition new_FieldSchema (s : FieldSchema) : Mem ptr := fun h =>
  Done (Some (length (fschemas h)),
        Build_Heap (collections h) (cschemas h) (fields h) (fschemas h ++ [s])).

(** Assignments through a non-nil pointer that was just read. *)
Definition set_Field (l : nat) (f : Field) (h : Heap) : Heap :=
  Build_Heap (collections h) (cschemas h) (<[l := f]> (fields h)) (fschemas h).

Definition set_Collection (l : nat) (c : Collection) (h : Heap) : Heap :=
  Build_Heap (<[l := c]> (collections h)) (cschemas h) (fields h) (fschemas h).

Definition set_FieldSchema (l : nat) (s : FieldSchema) (h : Heap) : Heap :=
  Build_Heap (collections h) (cschemas h) (fields h) (<[l := s]> (fschemas h)).

Fixpoint mem_map {A B} (f : A -> Mem B) (l : list A) : Mem (list B) :=
  match l with
  | [] => mem_ret []
  | a :: l' =>
      (let* b := f a in
       let* bs := mem_map f l' in
       mem_ret (b :: bs))%mem
  end.

(* ===================================================================== *)
(** ** Clone and Forward                                                  *)
(* ===================================================================== *)

Definition FieldSchema_Clone (s : FieldSchema) : Mem ptr :=
  match FieldSchema_Type s with
  | Some ty => new_FieldSchema {| FieldSchema_Type := Some (FieldType_Clone ty) |}
  | None => fun _ => Panic
  end.

Definition Field_Clone (f : Field) : Mem ptr :=
  (let* s := mem_read fschemas (Field_Schema f) in
   let* schema := FieldSchema_Clone s in
   new_Field {| Field_original := None; Field_Name := Field_Name f; Field_Schema := schema |})%mem.

Definition Field_Forward (fp : ptr) : Mem unit :=
  (let* f := mem_read fields fp in
   let* cloned := Field_Clone f in
   fun h =>
     match fp with
     | Some l =>
         Done (tt, set_Field l {| Field_original := cloned;
                                  Field_Name := Field_Name f;
                                  Field_Schema := Field_Schema f |} h)
     | None => Panic
     end)%mem.

(** [cloned := s] copies the struct, slice header included; the clones made
    in the loop are stored in [clonedFields], which the result never takes. *)
Definition CollectionSchema_Clone (s : CollectionSchema) : Mem ptr :=
  let cloned := s in
  (let* clonedFields :=
     mem_map (fun field => let* f := mem_read fields field in Field_Clone f) (Fields s) in
   new_CollectionSchema cloned)%mem.

Definition Collection_Clone (c : Collection) : Mem ptr :=
  (let* s := mem_read cschemas (Collection_Schema c) in
   let* schema := CollectionSchema_Clone s in
   new_Collection {| Collection_original := None;
                     Collection_Name := Collection_Name c;
                     Collection_Schema := schema |})%mem.

Definition Collection_Forward (cp : ptr) : Mem unit :=
  (let* c := mem_read collections cp in
   let* cloned := Collection_Clone c in
   let* _ := (fun h =>
     match cp with
     | Some l =>
         Done (tt, set_Collection l {| Collection_original := cloned;
                                       Collection_Name := Collection_Name c;
                                       Collection_Schema := Collection_Schema c |} h)
     | None => Panic
     end) in
   let* s := mem_read cschemas (Collection_Schema c) in
   let* _ := mem_map Field_Forward (Fields s) in
   mem_ret tt)%mem.

(* ===================================================================== *)
(** ** DuckDBTransaction.SaveCollection                                   *)
(* ===================================================================== *)

(** How a step of the method ends: it goes on with a value, the method
    returns an error value, or the goroutine panics. *)
Inductive Flow (A : Type) : Type :=
| Continue (a : A)
| Returned (err : error)
| Panicked.
Arguments Continue {A} a.
Arguments Returned {A} err.
Arguments Panicked {A}.

(** A step runs against the statements executed so far and extends them. *)
Definition Tx (A : Type) : Type := list string -> list string * Flow A.

Definition tx_ret {A} (a : A) : Tx A := fun log => (log, Continue a).

Definition tx_return {A} (err : error) : Tx A := fun log => (log, Returned err).

Definition tx_bind {A B} (m : Tx A) (k : A -> Tx B) : Tx B :=
  fun log =>
    match m log with
    | (log', Continue a) => k a log'
    | (log', Returned err) => (log', Returned err)
    | (log', Panicked) => (log', Panicked)
    end.

Definition tx_lift {A} (r : Run A) : Tx A :=
  fun log => match r with Done a => (log, Continue a) | Panic => (log, Panicked) end.

Declare Scope tx_scope.
Delimit Scope tx_scope with tx.
Notation "'do' x '<-' m ';' k" := (tx_bind m (fun x => k))
  (at level 10, x name, m at level 100, k at level 200) : tx_scope.

Fixpoint tx_filter {A} (p : A -> Tx bool) (l : list A) : Tx (list A) :=
  match l with
  | [] => tx_ret []
  | a :: l' =>
      (do keep <- p a;
       do rest <- tx_filter p l';
       tx_ret (if keep then a :: rest else rest))%tx
  end.

(** [lo.Find], reduced to its [found] result. *)
Fixpoint tx_find {A} (p : A -> Tx bool) (l : list A) : Tx bool :=
  match l with
  | [] => tx_ret false
  | a :: l' =>
      (do hit <- p a;
       if hit then tx_ret true else tx_find p l')%tx
  end.

Fixpoint tx_map {A B} (f : A -> Tx B) (l : list A) : Tx (list B) :=
  match l with
  | [] => tx_ret []
  | a :: l' =>
      (do b <- f a;
       do bs <- tx_map f l';
       tx_ret (b :: bs))%tx
  end.

Section SaveCollection.
(** [s.tx.Exec]: the error the database answers a statement with, given the
    statements it has executed before. *)
Variable Exec : list string -> string -> error.
Variable h : Heap.

Definition tx_exec (sql : string) : Tx error :=
  fun log => (log ++ [sql], Continue (Exec log sql)).

(** A [for] loop whose body executes one statement and returns on error. *)
Fixpoint exec_each {A} (stmt : A -> Tx string) (l : list A) : Tx unit :=
  match l with
  | [] => tx_ret tt
  | a :: l' =>
      (do sql <- stmt a;
       do err <- tx_exec sql;
       match err with
       | Some e => tx_return (Some e)
       | None => exec_each stmt l'
       end)%tx
  end.

Definition field_column (field : ptr) : Tx string :=
  (do f <- tx_lift (deref (fields h) field);
   do fs <- tx_lift (deref (fschemas h) (Field_Schema f));
   tx_lift (columnSQL (Field_Name f) (FieldSchema_Type fs)))%tx.

Definition is_create_field (field : ptr) : Tx bool :=
  (do f <- tx_lift (deref (fields h) field);
   tx_ret (match Field_original f with None => true | Some _ => false end))%tx.

Definition is_rename_field (field : ptr) : Tx bool :=
  (do f <- tx_lift (deref (fields h) field);
   do o <- tx_lift (deref (fields h) (Field_original f));
   do oo <- tx_lift (deref (fields h) (Field_original o));
   tx_ret (negb (String.eqb (Field_Name oo) (Field_Name f))))%tx.

Definition matches_original (origField field : ptr) : Tx bool :=
  (do f <- tx_lift (deref (fields h) field);
   match Field_original f with
   | None => tx_ret false
   | Some _ =>
       do o <- tx_lift (deref (fields h) (Field_original f));
       do orig <- tx_lift (deref (fields h) origField);
       tx_ret (String.eqb (Field_Name o) (Field_Name orig))
   end)%tx.

Definition is_remove_field (current : list ptr) (origField : ptr) : Tx bool :=
  (do found <- tx_find (matches_original origField) current;
   tx_ret (negb found))%tx.

Definition create_table (collection : Collection) : Tx Empty_set :=
  (do s <- tx_lift (deref (cschemas h) (Collection_Schema collection));
   do columns <- tx_map field_column (Fields s);
   let sql := "CREATE TABLE " +:+ Collection_Name collection +:+ " ("
              +:+ Join columns ", " +:+ ")" in
   do err <- tx_exec sql;
   tx_return err)%tx.

Definition rename_table (collection original : Collection) : Tx unit :=
  if negb (String.eqb (Collection_Name original) (Collection_Name collection)) then
    (let sql := "ALTER TABLE " +:+ Collection_Name original +:+ " RENAME TO "
                +:+ Collection_Name collection in
     do err <- tx_exec sql;
     match err with
     | Some e => tx_return (Some e)
     | None => tx_ret tt
     end)%tx
  else tx_ret tt.

Definition drop_column (collection : Collection) (field : ptr) : Tx string :=
  (do f <- tx_lift (deref (fields h) field);
   tx_ret ("ALTER TABLE " +:+ Collection_Name collection +:+ " DROP COLUMN "
           +:+ Field_Name f))%tx.

Definition rename_column (collection : Collection) (field : ptr) : Tx string :=
  (do f <- tx_lift (deref (fields h) field);
   do o <- tx_lift (deref (fields h) (Field_original f));
   tx_ret ("ALTER TABLE " +:+ Collection_Name collection +:+ " RENAME COLUMN "
           +:+ Field_Name o +:+ " TO " +:+ Field_Name f))%tx.

Definition add_column (collection : Collection) (field : ptr) : Tx string :=
  (do column <- field_column field;
   tx_ret ("ALTER TABLE " +:+ Collection_Name collection +:+ " ADD COLUMN " +:+ column))%tx.

Definition alter_table (collection : Collection) : Tx Empty_set :=
  (do original <- tx_lift (deref (collections h) (Collection_original collection));
   do _ <- rename_table collection original;
   do s <- tx_lift (deref (cschemas h) (Collection_Schema collection));
   do createFields <- tx_filter is_create_field (Fields s);
   do renameFields <- tx_filter is_rename_field (Fields s);
   do os <- tx_lift (deref (cschemas h) (Collection_Schema original));
   do removeFields <- tx_filter (is_remove_field (Fields s)) (Fields os);
   do _ <- exec_each (drop_column collection) removeFields;
   do _ <- exec_each (rename_column collection) renameFields;
   do _ <- exec_each (add_column collection) createFields;
   tx_return None)%tx.

(** The method, run on a fresh transaction: the statements it executed, in
    order, and whether it returned (with which error) or panicked. *)
Definition SaveCollection (collection : Collection) : list string * Run error :=
  let body :=
    match Collection_original collection with
    | None => create_table collection
    | Some _ => alter_table collection
    end in
  match body [] with
  | (log, Continue e) => match e with end
  | (log, Returned err) => (log, Done err)
  | (log, Panicked) => (log, Panic)
  end.
End SaveCollection.

(* ===================================================================== *)
(** ** Host-side declarations and mutations                               *)
(* ===================================================================== *)

(** A field literal [&Field{Name: name, Schema: &FieldSchema{Type: ty}}]. *)
Definition declare_Field (decl : string * FieldType) : Mem ptr :=
  (let* schema := new_FieldSchema {| FieldSchema_Type := Some (snd decl) |} in
   new_Field {| Field_original := None; Field_Name := fst decl; Field_Schema := schema |})%mem.

(** A collection literal with the given fields and no access hooks. *)
Definition declare_Collection (name : string) (decls : list (string * FieldType)) : Mem ptr :=
  (let* fs := mem_map declare_Field decls in
   let* schema := new_CollectionSchema
     {| Fields := fs; ViewFilter := None; AllowCreate := None;
        AllowUpdate := None; AllowDelete := None |} in
   new_Collection {| Collection_original := None; Collection_Name := name;
                     Collection_Schema := schema |})%mem.

(** The assignment [field.Name = name] through a live [*Field]. *)
Definition assign_Field_Name (fp : ptr) (name : string) : Mem unit :=
  (let* f := mem_read fields fp in
   fun h =>
     match fp with
     | Some l =>
         Done (tt, set_Field l {| Field_original := Field_original f;
                                  Field_Name := name;
                                  Field_Schema := Field_Schema f |} h)
     | None => Panic
     end)%mem.

(** The assignment [field.Schema.Type = ty] through a live [*Field]. *)
Definition assign_Field_Type (fp : ptr) (ty : FieldType) : Mem unit :=
  (let* f := mem_read fields fp in
   let* _ := mem_read fschemas (Field_Schema f) in
   fun h =>
     match Field_Schema f with
     | Some l => Done (tt, set_FieldSchema l {| FieldSchema_Type := Some ty |} h)
     | None => Panic
     end)%mem.

(** The heap a heap computation ends in, when it does not panic. *)
Definition heap_after {A} (m : Mem A) (h : Heap) : Heap :=
  match m h with Done (_, h') => h' | Panic => h end.

(** The database that accepts every statement. *)
Definition Exec_ok : list string -> string -> error := fun _ _ => None.

(** Reading a collection value out of the store, for passing it by value. *)
Definition collection_at (h : Heap) (cp : ptr) : Collection :=
  match deref (collections h) cp with
  | Done c => c
  | Panic => {| Collection_original := None; Collection_Name := ""; Collection_Schema := None |}
  end.

Definition text_plain : FieldType := Text (FieldTypeText.mk false None None None None).
Definition id_primary : FieldType := Id (FieldTypeId.mk false true None).

Definition users_decl : Mem ptr :=
  declare_Collection "users" [("id", id_primary); ("email", text_plain)].

Definition users_fwd : Mem unit :=
  (let* c := users_decl in Collection_Forward c)%mem.

(** A table with one text column "a", reconciled, then the live field is
    renamed to "b". *)
Definition notes_decl : Mem ptr := declare_Collection "notes" [("a", text_plain)].

Definition notes_renamed : Mem unit :=
  (let* c := notes_decl in
   let* _ := Collection_Forward c in
   assign_Field_Name (Some 0%nat) "b")%mem.

Definition notes_retyped : Mem unit :=
  (let* c := notes_decl in
   let* _ := Collection_Forward c in
   assign_Field_Type (Some 0%nat) id_primary)%mem.

Definition notes_fwd : Mem unit :=
  (let* c := notes_decl in Collection_Forward c)%mem.

(** The fields the baseline [c.original] records, read through
    [c.original.Schema.Fields]: each with its name and its type. *)
Definition baseline_fields (h : Heap) (cp : ptr) : Run (list (string * option FieldType)) :=
  match deref (collections h) cp with
  | Done c =>
      match deref (collections h) (Collection_original c) with
      | Done o =>
          match deref (cschemas h) (Collection_Schema o) with
          | Done s =>
              (fix go (l : list ptr) : Run (list (string * option FieldType)) :=
                 match l with
                 | [] => Done []
                 | fp :: l' =>
                     run_bind (deref (fields h) fp) (fun f =>
                     run_bind (deref (fschemas h) (Field_Schema f)) (fun fs =>
                     run_bind (go l') (fun rest =>
                     Done ((Field_Name f, FieldSchema_Type fs) :: rest))))
                 end) (Fields s)
          | Panic => Panic
          end
      | Panic => Panic
      end
  | Panic => Panic
  end.

(** A clock reading of November 2023, in milliseconds, and an entropy. *)
Definition now_2023 : Z := 1700000000000.

Definition zero8 : list Byte.byte :=
  [Byte.x00; Byte.x00; Byte.x00; Byte.x00; Byte.x00; Byte.x00; Byte.x00; Byte.x00].

(** Replacing the byte at index [i] of a string. *)
Fixpoint set_byte (i : nat) (c : ascii) (s : string) : string :=
  match s, i with
  | EmptyString, _ => EmptyString
  | String _ s', O => String c s'
  | String d s', S i' => String d (set_byte i' c s')
  end.

(** Dropping the last byte of a string. *)
Fixpoint drop_last (s : string) : string :=
  match s with
  | EmptyString => EmptyString
  | String _ EmptyString => EmptyString
  | String c s' => String c (drop_last s')
  end.

(** A hexadecimal digit, in either case. *)
Definition is_hex (c : ascii) : bool := in_cutset (lower_byte c) "0123456789abcdef".

Fixpoint all_bytes (p : ascii -> bool) (s : string) : bool :=
  match s with
  | EmptyString => true
  | String c s' => p c && all_bytes p s'
  end.

(** A small stand-in for [regexp.MatchString]: a pattern without
    metacharacters matches the strings that contain it, and the pattern "("
    does not compile. *)
Definition literal_MatchString (pattern s : string) : bool * error :=
  if String.eqb pattern "(" then
    (false, Some "error parsing regexp: missing closing ): `(`")
  else
    (match String.index 0 pattern s with Some _ => true | None => false end, None).

(** A library instance for evaluating examples: literal patterns, and a
    clock library that parses nothing. *)
Definition plain_lib : GoLib := {|
  regexp_MatchString := literal_MatchString;
  fmt_v_float64 := fun _ => "float64";
  time_Parse := fun _ => None;
  time_Format := fun _ => "time"
|}.

Definition text_with_pattern (pattern : string) : FieldTypeText.t :=
  FieldTypeText.mk false None None None (Some (fun _ => pattern)).

(** *** Absent input and defaults, as the specification words it *)

Definition FieldType_nullable (ft : FieldType) : bool :=
  match ft with
  | Id ft => FieldTypeId.Nullable ft || FieldTypeId.PrimaryKey ft
  | Text ft => FieldTypeText.Nullable ft
  | Int ft => FieldTypeInt.Nullable ft
  | Float ft => FieldTypeFloat.Nullable ft
  | Bool ft => FieldTypeBool.Nullable ft
  | DateTime ft => FieldTypeDateTime.Nullable ft
  | Enum ft => FieldTypeEnum.Nullable ft
  | SingleRelation ft => FieldTypeSingleRelation.Nullable ft
  end.

(** The value of the default provider a field type is configured with. *)
Definition configured_default (ft : FieldType) : option any :=
  match ft with
  | Id ft => option_map (fun g => string_any (g tt)) (FieldTypeId.CreateDefaultValue ft)
  | Text ft => option_map (fun g => string_any (g tt)) (FieldTypeText.CreateDefaultValue ft)
  | Int ft => option_map (fun g => int64_any (g tt)) (FieldTypeInt.CreateDefaultValue ft)
  | Float ft => option_map (fun g => float64_any (g tt)) (FieldTypeFloat.CreateDefaultValue ft)
  | Bool ft => option_map (fun g => bool_any (g tt)) (FieldTypeBool.CreateDefaultValue ft)
  | DateTime ft => option_map (fun g => Time_any (g tt)) (FieldTypeDateTime.CreateDefaultValue ft)
  | Enum ft => option_map (fun g => string_any (g tt)) (FieldTypeEnum.CreateDefaultValue ft)
  | SingleRelation _ => None
  end.

(** "Returns the configured default, or absent if none", without error. *)
Definition default_or_absent (ft : FieldType) : any * error :=
  (match configured_default ft with Some v => v | None => nil_any end, None).

(** The field types on which the default rule is the catalog's design: an
    Enum whose default is a non-empty member of its values, and every other
    variant; an Id is in scope when it has no provider. *)
Definition default_rule_applies (ft : FieldType) : Prop :=
  match ft with
  | Id ft => FieldTypeId.CreateDefaultValue ft = None
  | Enum ft =>
      match FieldTypeEnum.CreateDefaultValue ft with
      | Some g => Contains (FieldTypeEnum.EnumValues ft) (g tt) = true /\ g tt <> ""
      | None => True
      end
  | _ => True
  end.

Definition enum_abc (default : string) : FieldTypeEnum.t :=
  FieldTypeEnum.mk true ["a"; "b"; "c"] (Some (fun _ => default)).

(** *** Column definitions of a collection, as a relation on the store *)

(** [col] is the column definition of the field behind [fp]. *)
Definition column_of (h : Heap) (fp : ptr) (col : string) : Prop :=
  exists f fs ty,
    deref (fields h) fp = Done f /\
    deref (fschemas h) (Field_Schema f) = Done fs /\
    FieldSchema_Type fs = Some ty /\
    columnSQL (Field_Name f) (Some ty) = Done col.

(** The field behind [fp] is declared: it exists and wraps a catalog type. *)
Definition declared_field (h : Heap) (fp : ptr) : Prop :=
  exists f fs ty,
    deref (fields h) fp = Done f /\
    deref (fschemas h) (Field_Schema f) = Done fs /\
    FieldSchema_Type fs = Some ty.

(** [fp] points into the field store. *)
Definition live_field (h : Heap) (fp : ptr) : Prop :=
  exists l, fp = Some l /\ (l < length (fields h))%nat.

(** *** Auxiliary notions for the snapshot proofs *)

(** The heap a clone of a field is written to. *)
Definition with_clone (h : Heap) (f : Field) (ty : FieldType) : Heap :=
  Build_Heap (collections h) (cschemas h)
    (fields h ++ [{| Field_original := None; Field_Name := Field_Name f;
                     Field_Schema := Some (length (fschemas h)) |}])
    (fschemas h ++ [{| FieldSchema_Type := Some (FieldType_Clone ty) |}]).

(** Neither loop of Forward touches the collections or their schemas, and
    both keep the fields that exist, only adding to them. *)
Definition same_collections (h h' : Heap) : Prop :=
  collections h' = collections h /\ cschemas h' = cschemas h /\
  (length (fields h) <= length (fields h'))%nat.

(** The field at [l0] has been forwarded since the store held [N] fields:
    its original is a later field, which has no original of its own. *)
Definition forwarded (N l0 : nat) (h : Heap) : Prop :=
  exists f n nf,
    fields h !! l0 = Some f /\ Field_original f = Some n /\ (N <= n)%nat /\
    fields h !! n = Some nf /\ Field_original nf = None /\
    Field_Name nf = Field_Name f.

(** *** Further sample values *)

(** A clock reading of the year 4253, in milliseconds: the first at which
    the timestamp prints as 15 digits. *)
Definition now_4253 : Z := 72057594037928.

Definition ones8 : list Byte.byte :=
  [Byte.x01; Byte.x01; Byte.x01; Byte.x01; Byte.x01; Byte.x01; Byte.x01; Byte.x01].

(** *** Notions for stating the validation rules *)

(** The default of an Enum, when it has a provider, is one of its values. *)
Definition enum_default_valid (ft : FieldTypeEnum.t) : Prop :=
  match FieldTypeEnum.CreateDefaultValue ft with
  | Some g => Contains (FieldTypeEnum.EnumValues ft) (g tt) = true
  | None => True
  end.

(** [i] respects the bounds that are configured, both inclusive. *)
Definition within_bounds (lo hi : option (unit -> Z)) (i : Z) : Prop :=
  (forall g, lo = Some g -> g tt <= i) /\ (forall g, hi = Some g -> i <= g tt).

(** The dynamic type a variant asserts on a present value, for the variants
    that assert one, and the message of a failed assertion. *)
Definition has_native_type (ft : FieldType) (value : any) : bool :=
  match ft, value with
  | Text _, string_any _ => true
  | Int _, int64_any _ => true
  | Float _, float64_any _ => true
  | Bool _, bool_any _ => true
  | _, _ => false
  end.

Definition type_mismatch_message (ft : FieldType) : option string :=
  match ft with
  | Text _ => Some "invalid value, expected string"
  | Int _ => Some "invalid value, expected integer"
  | Float _ => Some "invalid value, expected float"
  | Bool _ => Some "invalid value, expected bool"
  | _ => None
  end.

Definition int_between (lo hi : Z) : FieldTypeInt.t :=
  FieldTypeInt.mk false None (Some (fun _ => lo)) (Some (fun _ => hi)).

(** *** Further host-side mutations and scenarios *)

Definition set_CollectionSchema (l : nat) (s : CollectionSchema) (h : Heap) : Heap :=
  Build_Heap (collections h) (<[l := s]> (cschemas h)) (fields h) (fschemas h).

(** The assignment [c.Name = name] through a live [*Collection]. *)
Definition assign_Collection_Name (cp : ptr) (name : string) : Mem unit :=
  (let* c := mem_read collections cp in
   fun h =>
     match cp with
     | Some l =>
         Done (tt, set_Collection l {| Collection_original := Collection_original c;
                                       Collection_Name := name;
                                       Collection_Schema := Collection_Schema c |} h)
     | None => Panic
     end)%mem.

(** The assignment [c.Schema.Fields = fs] through a live [*Collection]. *)
Definition assign_Collection_Fields (cp : ptr) (fs : list ptr) : Mem unit :=
  (let* c := mem_read collections cp in
   let* s := mem_read cschemas (Collection_Schema c) in
   fun h =>
     match Collection_Schema c with
     | Some l =>
         Done (tt, set_CollectionSchema l
                     {| Fields := fs; ViewFilter := ViewFilter s;
                        AllowCreate := AllowCreate s; AllowUpdate := AllowUpdate s;
                        AllowDelete := AllowDelete s |} h)
     | None => Panic
     end)%mem.

(** "notes" is reconciled, then renamed to "memos" and stripped of its
    fields. *)
Definition notes_emptied : Mem unit :=
  (let* c := notes_decl in
   let* _ := Collection_Forward c in
   let* _ := assign_Collection_Name c "memos" in
   assign_Collection_Fields c [])%mem.

(** "users" is reconciled, then a field "active" is declared and appended. *)
Definition users_extended : Mem unit :=
  (let* c := users_decl in
   let* _ := Collection_Forward c in
   let* active := declare_Field ("active", Bool (FieldTypeBool.mk false None)) in
   assign_Collection_Fields c [Some 0%nat; Some 1%nat; active])%mem.

(** A database that refuses every statement. *)
Definition Exec_refuse : list string -> string -> error := fun _ _ => Some "refused".

(** *** Notions for stating what a reconciliation executes *)

(** A batch of statements run in order against the database, stopping at
    the first one it refuses: the statements executed and the error. *)
Fixpoint run_batch (Exec : list string -> string -> error)
    (log : list string) (stmts : list string) : list string * error :=
  match stmts with
  | [] => (log, None)
  | sql :: rest =>
      match Exec log sql with
      | Some e => (log ++ [sql], Some e)
      | None => run_batch Exec (log ++ [sql]) rest
      end
  end.

Definition rename_table_stmt (original collection : Collection) : string :=
  "ALTER TABLE " +:+ Collection_Name original +:+ " RENAME TO "
  +:+ Collection_Name collection.

(** The table rename, when the names differ. *)
Definition rename_table_stmts (original collection : Collection) : list string :=
  if String.eqb (Collection_Name original) (Collection_Name collection) then []
  else [rename_table_stmt original collection].

Definition drop_column_stmt (collection : Collection) (column : string) : string :=
  "ALTER TABLE " +:+ Collection_Name collection +:+ " DROP COLUMN " +:+ column.

(** [name] is the name of the field behind [fp]. *)
Definition field_named (h : Heap) (fp : ptr) (name : string) : Prop :=
  exists f, deref (fields h) fp = Done f /\ Field_Name f = name.

(** *** Notions for stating what Forward keeps and records *)

(** Everything [h] holds is still in [h'], with the same names, schema
    pointers, fields and types; only [original] pointers may differ. *)
Definition same_live (h h' : Heap) : Prop :=
  (forall i c, collections h !! i = Some c ->
     exists c', collections h' !! i = Some c' /\
       Collection_Name c' = Collection_Name c /\
       Collection_Schema c' = Collection_Schema c) /\
  (forall i s, cschemas h !! i = Some s -> cschemas h' !! i = Some s) /\
  (forall i f, fields h !! i = Some f ->
     exists f', fields h' !! i = Some f' /\
       Field_Name f' = Field_Name f /\ Field_Schema f' = Field_Schema f) /\
  (forall i fs, fschemas h !! i = Some fs -> fschemas h' !! i = Some fs).

(** The field at [l0] carries a snapshot taken since the store held [N]
    fields: its original is a later field without an original, with the
    field's name and, in a field schema of its own, the field's type. *)
Definition snapshotted (N l0 : nat) (h : Heap) : Prop :=
  exists f n nf sl nsl ty,
    fields h !! l0 = Some f /\ Field_original f = Some n /\ (N <= n)%nat /\
    fields h !! n = Some nf /\ Field_original nf = None /\
    Field_Name nf = Field_Name f /\
    Field_Schema f = Some sl /\ Field_Schema nf = Some nsl /\ sl <> nsl /\
    fschemas h !! sl = Some {| FieldSchema_Type := Some ty |} /\
    fschemas h !! nsl = Some {| FieldSchema_Type := Some ty |}.

(* ===================================================================== *)
(** ** The application and its migrations (ldb.go)                        *)
(* ===================================================================== *)

Record Migration := {
  Up : option (unit -> error);
  Down : option (unit -> error)
}.

(** [Migrations] is a Go map: [None] is the nil map. The map holds pointers
    to copies of the registered values; it is modelled by the values. *)
Record App := {
  Migrations : option (gmap string Migration);
  DatabaseService : ptr;
  HttpService : ptr
}.

Definition RegisterMigration (app : App) (name : string) (migration : Migration) : App :=
  let migrations :=
    match Migrations app with
    | None => ∅
    | Some m => m
    end in
  {| Migrations := Some (<[name := migration]> migrations);
     DatabaseService := DatabaseService app;
     HttpService := HttpService app |}.

(** Reading [app.Migrations[name]]; a nil map reads as empty. *)
Definition registered (app : App) (name : string) : option Migration :=
  match Migrations app with
  | Some m => m !! name
  | None => None
  end.

(** *** Notions for stating the column definitions *)

Definition native_type (ty : FieldType) : string :=
  match ty with
  | Bool _ => "BOOL"
  | DateTime _ => "TIMESTAMP"
  | Float _ => "REAL"
  | Int _ => "BIGINT"
  | Id _ | Enum _ | SingleRelation _ | Text _ => "TEXT"
  end.

(** What follows the nullability clause. *)
Definition column_suffix (ty : FieldType) : string :=
  match ty with
  | Id ft => if FieldTypeId.PrimaryKey ft then " PRIMARY KEY" else ""
  | SingleRelation ft =>
      " REFERENCES " +:+ FieldTypeSingleRelation.Collection ft +:+ "(id)"
      +:+ (if FieldTypeSingleRelation.CascadeDelete ft then " ON DELETE CASCADE" else "")
  | _ => ""
  end.

(** Whether validation lets an absent input through. *)
Definition accepts_absent (lib : GoLib) (ty : FieldType) : bool :=
  match snd (FieldType_ValidateValue lib ty nil_any) with
  | None => true
  | Some _ => false
  end.

(** Case analysis on every [match] of a hypothesis. *)
Ltac split_matches H :=
  repeat match type of H with
         | context [match ?x with _ => _ end] => destruct x eqn:?
         end.

(* ===================================================================== *)
(** * Properties                                                          *)
(* ===================================================================== *)

(** ** Identifiers *)

Lemma length_append (a b : string) :
  String.length (a +:+ b) = (String.length a + String.length b)%nat.
Proof. induction a as [|c a IH]; simpl; [reflexivity | now rewrite IH]. Qed.

Lemma length_fmt_x_bytes (bs : list Byte.byte) :
  String.length (fmt_x_bytes bs) = (2 * length bs)%nat.
Proof. induction bs as [|b bs IH]; simpl; [reflexivity | rewrite IH; lia]. Qed.

(** A positive number with [k+1] hexadecimal digits prints as [k+1] bytes. *)
Lemma length_hex_of_pos (k : nat) :
  forall (p : positive) (rest : string),
    16 ^ Z.of_nat k <= Z.pos p < 16 ^ Z.of_nat (S k) ->
    String.length (HexString.Raw.of_pos p rest) = (S k + String.length rest)%nat.
Proof.
  induction k as [|k IH]; intros p rest Hp.
  - change (16 ^ Z.of_nat 1) with 16 in Hp. change (16 ^ Z.of_nat 0) with 1 in Hp.
    do 4 (try destruct p as [p|p|]); try lia; reflexivity.
  - rewrite !Nat2Z.inj_succ, !Z.pow_succ_r in Hp by lia.
    assert (H16 : 1 <= 16 ^ Z.of_nat k) by (apply Z.lt_pred_le, Z.pow_pos_nonneg; lia).
    do 4 (try destruct p as [p|p|]); try lia;
      cbn [HexString.Raw.of_pos];
      (rewrite IH; [cbn [String.length]; lia
                   | rewrite Nat2Z.inj_succ, Z.pow_succ_r by lia; lia]).
Qed.

Lemma int64_wrap_small (z : Z) : - 2 ^ 63 <= z < 2 ^ 63 -> int64_wrap z = z.
Proof. intros Hz. unfold int64_wrap. rewrite Z.mod_small; lia. Qed.

(** Between December 1978 and September 2112 the timestamp prints as 13
    digits, so an id has 13 + 16 bytes. *)
Lemma GenerateId_length (UnixMilli : Z) (entropy : list Byte.byte) :
  length entropy = 8%nat ->
  281474976711 <= UnixMilli <= 4503599627370 ->
  String.length (GenerateId UnixMilli entropy) = 29%nat.
Proof.
  intros He Hms. unfold GenerateId.
  rewrite length_append, length_fmt_x_bytes, He, int64_wrap_small by lia.
  destruct (UnixMilli * 1000) as [|p|p] eqn:E; try lia.
  cbn [fmt_x_int64]. rewrite (length_hex_of_pos 12); [reflexivity|].
  change (16 ^ Z.of_nat 12) with 281474976710656.
  change (16 ^ Z.of_nat 13) with 4503599627370496. lia.
Qed.

(** C2 (first half, on the code): whatever the entropy, an id generated at
    any clock reading between December 1978 and September 2112 has 29 bytes
    and is refused by ValidateId, which demands 31. *)
Theorem GenerateId_rejected_by_ValidateId (UnixMilli : Z) (entropy : list Byte.byte) :
  length entropy = 8%nat ->
  281474976711 <= UnixMilli <= 4503599627370 ->
  ValidateId (string_any (GenerateId UnixMilli entropy))
  = Some "invalid id, expected string of length 31".
Proof.
  intros He Hms. unfold ValidateId.
  rewrite (GenerateId_length _ _ He Hms). reflexivity.
Qed.

Lemma GenerateId_rejected_by_ValidateId_witness :
  length zero8 = 8%nat /\
  281474976711 <= now_2023 <= 4503599627370 /\
  GenerateId now_2023 zero8 = "60a24181e40000000000000000000" /\
  ValidateId (string_any (GenerateId now_2023 zero8))
  = Some "invalid id, expected string of length 31".
Proof.
  split; [reflexivity|]. split; [unfold now_2023; lia|]. split; [reflexivity|].
  apply (GenerateId_rejected_by_ValidateId now_2023 zero8);
    [reflexivity | unfold now_2023; lia].
Defined.

(** *** What ValidateId accepts *)

Lemma TrimLeft_empty (s cutset : string) :
  TrimLeft s cutset = EmptyString <-> all_bytes (fun c => in_cutset c cutset) s = true.
Proof.
  induction s as [|c s IH]; simpl; [tauto|].
  destruct (in_cutset c cutset); simpl; [exact IH|].
  split; discriminate.
Qed.

Lemma TrimRight_empty (s cutset : string) :
  TrimRight s cutset = EmptyString <-> all_bytes (fun c => in_cutset c cutset) s = true.
Proof.
  induction s as [|c s IH]; simpl; [tauto|].
  destruct (TrimRight s cutset) eqn:E.
  - destruct (in_cutset c cutset); simpl.
    + split; intros _; [now apply IH | reflexivity].
    + split; discriminate.
  - split; [discriminate|].
    intros H. apply andb_true_iff in H as [_ H]. apply IH in H. discriminate.
Qed.

Lemma TrimLeft_head (s cutset : string) :
  match TrimLeft s cutset with
  | EmptyString => True
  | String c _ => in_cutset c cutset = false
  end.
Proof.
  induction s as [|c s IH]; simpl; [exact I|].
  destruct (in_cutset c cutset) eqn:E; [exact IH | simpl; exact E].
Qed.

(** Trimming leaves nothing exactly when every byte is in the cutset. *)
Lemma Trim_empty (s cutset : string) :
  Trim s cutset = EmptyString <-> all_bytes (fun c => in_cutset c cutset) s = true.
Proof.
  unfold Trim. split.
  - intros H. apply TrimLeft_empty.
    pose proof (TrimLeft_head s cutset) as Hh.
    destruct (TrimLeft s cutset) as [|c t]; [reflexivity|].
    apply TrimRight_empty in H. simpl in H. rewrite Hh in H. discriminate.
  - intros H. apply TrimLeft_empty in H. rewrite H. reflexivity.
Qed.

Lemma all_bytes_ToLower (s : string) :
  all_bytes (fun c => in_cutset c "0123456789abcdef") (ToLower s) = all_bytes is_hex s.
Proof.
  induction s as [|c s IH]; [reflexivity|].
  cbn [all_bytes ToLower]. rewrite IH. reflexivity.
Qed.

Lemma length_zero_empty (s : string) : (String.length s =? 0)%nat = true <-> s = EmptyString.
Proof. destruct s; simpl; split; (reflexivity || discriminate). Qed.

(** ValidateId accepts the strings of 31 bytes that are all hexadecimal
    digits, in either case, and nothing else. *)
Lemma ValidateId_accepts (s : string) :
  ValidateId (string_any s) = None <->
  String.length s = 31%nat /\ all_bytes is_hex s = true.
Proof.
  unfold ValidateId, requiredLen.
  destruct (String.length s =? 31)%nat eqn:El; simpl.
  - apply Nat.eqb_eq in El.
    destruct (String.length (Trim (ToLower s) "0123456789abcdef") =? 0)%nat eqn:Et; simpl.
    + apply length_zero_empty, Trim_empty in Et. rewrite all_bytes_ToLower in Et. tauto.
    + split; [discriminate|]. intros [_ H]. rewrite <- all_bytes_ToLower in H.
      apply Trim_empty, length_zero_empty in H. congruence.
  - apply Nat.eqb_neq in El. split; [discriminate | tauto].
Qed.

Lemma length_set_byte (i : nat) (c : ascii) (s : string) :
  String.length (set_byte i c s) = String.length s.
Proof.
  revert i; induction s as [|d s IH]; intros [|i]; simpl; try reflexivity.
  now rewrite IH.
Qed.

Lemma all_bytes_set_byte (p : ascii -> bool) (i : nat) (c : ascii) (s : string) :
  (i < String.length s)%nat -> p c = false -> all_bytes p (set_byte i c s) = false.
Proof.
  revert i; induction s as [|d s IH]; intros [|i] Hi Hc; simpl in *; try lia.
  - now rewrite Hc.
  - rewrite IH by (assumption || lia). apply andb_false_r.
Qed.

Lemma length_drop_last (s : string) :
  String.length (drop_last s) = Nat.pred (String.length s).
Proof.
  induction s as [|c s IH]; [reflexivity|].
  destruct s as [|d s]; [reflexivity|].
  change (drop_last (String c (String d s))) with (String c (drop_last (String d s))).
  cbn [String.length] in *. rewrite IH. reflexivity.
Qed.

(** In an accepted id, overwriting any one byte with a byte that is not a
    hexadecimal digit makes ValidateId fail. *)
Lemma ValidateId_mutation_rejected (s : string) (i : nat) (c : ascii) :
  ValidateId (string_any s) = None ->
  (i < 31)%nat -> is_hex c = false ->
  ValidateId (string_any (set_byte i c s)) = Some "invalid id, expcted hex string".
Proof.
  intros Hs Hi Hc. apply ValidateId_accepts in Hs as [Hl _].
  assert (Hbad : all_bytes is_hex (set_byte i c s) = false)
    by (apply all_bytes_set_byte; [lia | assumption]).
  unfold ValidateId, requiredLen. rewrite length_set_byte, Hl. simpl.
  destruct (String.length (Trim (ToLower (set_byte i c s)) "0123456789abcdef") =? 0)%nat eqn:Et;
    [|reflexivity].
  apply length_zero_empty, Trim_empty in Et. rewrite all_bytes_ToLower in Et. congruence.
Qed.

(** An accepted id cut short by one byte fails ValidateId. *)
Lemma ValidateId_truncation_rejected (s : string) :
  ValidateId (string_any s) = None ->
  ValidateId (string_any (drop_last s)) = Some "invalid id, expected string of length 31".
Proof.
  intros Hs. apply ValidateId_accepts in Hs as [Hl _].
  unfold ValidateId, requiredLen. rewrite length_drop_last, Hl. reflexivity.
Qed.

(** The two lemmas above are not vacuous: an id generated in the year 4253,
    when the timestamp reaches 15 digits, is accepted. *)
Lemma ValidateId_accepts_far_future :
  ValidateId (string_any (GenerateId 72057594037928 zero8)) = None /\
  ValidateId (string_any (set_byte 30 "g" (GenerateId 72057594037928 zero8)))
  = Some "invalid id, expcted hex string" /\
  ValidateId (string_any (drop_last (GenerateId 72057594037928 zero8)))
  = Some "invalid id, expected string of length 31".
Proof.
  assert (H : ValidateId (string_any (GenerateId 72057594037928 zero8)) = None)
    by reflexivity.
  split; [exact H|]. split.
  - apply (ValidateId_mutation_rejected _ 30 "g" H); [lia | reflexivity].
  - apply (ValidateId_truncation_rejected _ H).
Qed.

(** C10: on every input whose dynamic type is not string, ValidateId returns
    the error "invalid id, expected string value"; being a total function it
    neither panics on such an input nor accepts it. *)
Theorem ValidateId_rejects_non_string (value : any) :
  (forall s, value <> string_any s) ->
  ValidateId value = Some "invalid id, expected string value".
Proof.
  intros Hv. destruct value; try reflexivity.
  exfalso. exact (Hv s eq_refl).
Qed.

Lemma ValidateId_rejects_non_string_witness :
  (forall s, int64_any 42 <> string_any s) /\
  ValidateId (int64_any 42) = Some "invalid id, expected string value".
Proof.
  split; [intros s; discriminate|].
  apply (ValidateId_rejects_non_string (int64_any 42)). intros s; discriminate.
Defined.

(** ** Column definitions *)

Lemma append_cons (x : ascii) (a b : string) : String x a +:+ b = String x (a +:+ b).
Proof. reflexivity. Qed.

Lemma append_assoc (a b c : string) : (a +:+ b) +:+ c = a +:+ (b +:+ c).
Proof.
  induction a as [|x a IH]; [reflexivity|].
  rewrite !append_cons, IH. reflexivity.
Qed.

(** The mapping is total over the catalog: only the nil interface panics. *)
Lemma columnSQL_total (column : string) (ty : FieldType) :
  exists col, columnSQL column (Some ty) = Done col.
Proof. destruct ty; simpl; eexists; reflexivity. Qed.

(** C6, as the code has it: the column definition of an Id field with
    PrimaryKey set is the column name followed by " TEXT NULL PRIMARY KEY";
    the primary-key flag is passed to withNullConstraint as nullability. *)
Theorem columnSQL_Id_primary_key (column : string) (ft : FieldTypeId.t) :
  FieldTypeId.PrimaryKey ft = true ->
  columnSQL column (Some (Id ft)) = Done (column +:+ " TEXT NULL PRIMARY KEY").
Proof.
  intros Hpk. unfold columnSQL, withNullConstraint.
  rewrite Hpk, orb_true_r, !append_assoc. reflexivity.
Qed.

Lemma columnSQL_Id_primary_key_witness :
  FieldTypeId.PrimaryKey (FieldTypeId.mk false true None) = true /\
  columnSQL "id" (Some id_primary) = Done "id TEXT NULL PRIMARY KEY".
Proof.
  split; [reflexivity|].
  apply (columnSQL_Id_primary_key "id" (FieldTypeId.mk false true None)). reflexivity.
Defined.

(** C6, as stated, fails on the declaration of the repository's own test:
    the definition of the primary key "id" is not "id TEXT NOT NULL PRIMARY
    KEY". *)
Lemma Id_primary_key_column_is_not_NOT_NULL :
  FieldTypeId.PrimaryKey (FieldTypeId.mk false true None) = true /\
  columnSQL "id" (Some (Id (FieldTypeId.mk false true None)))
  <> Done "id TEXT NOT NULL PRIMARY KEY".
Proof. split; [reflexivity | discriminate]. Qed.

(** An Id that is neither nullable nor a primary key is NOT NULL. *)
Lemma columnSQL_Id_plain (column : string) (g : option (unit -> string)) :
  columnSQL column (Some (Id (FieldTypeId.mk false false g)))
  = Done (column +:+ " TEXT NOT NULL").
Proof. unfold columnSQL, withNullConstraint. simpl. now rewrite append_assoc. Qed.

(** ** Validation: absent input *)

(** C7, as the code has it by design: with an absent input, a nullable Text,
    Int, Float, Bool or DateTime returns its provider's value, or absent
    without a provider; so does an Enum whose provider yields a non-empty
    member of EnumValues; SingleRelation, and Id without a provider, return
    absent. *)
Theorem absent_input_returns_default (lib : GoLib) (ft : FieldType) :
  FieldType_nullable ft = true ->
  default_rule_applies ft ->
  FieldType_ValidateValue lib ft nil_any = default_or_absent ft.
Proof.
  intros Hn Hd. unfold default_or_absent.
  destruct ft as [ft|ft|ft|ft|ft|ft|ft|ft]; destruct ft; simpl in *.
  - unfold FieldTypeId.ValidateValue; simpl. rewrite Hn, Hd. reflexivity.
  - unfold FieldTypeText.ValidateValue; simpl. rewrite Hn.
    destruct CreateDefaultValue; reflexivity.
  - unfold FieldTypeInt.ValidateValue; simpl. rewrite Hn.
    destruct CreateDefaultValue; reflexivity.
  - unfold FieldTypeFloat.ValidateValue; simpl. rewrite Hn.
    destruct CreateDefaultValue; reflexivity.
  - unfold FieldTypeBool.ValidateValue; simpl. rewrite Hn.
    destruct CreateDefaultValue; reflexivity.
  - unfold FieldTypeDateTime.ValidateValue; simpl. rewrite Hn.
    destruct CreateDefaultValue; reflexivity.
  - unfold FieldTypeEnum.ValidateValue, FieldTypeEnum.validate_input; simpl.
    destruct CreateDefaultValue as [g|]; simpl.
    + destruct Hd as [Hc Hne]. rewrite Hc, Hn. simpl.
      destruct (g tt) as [|c d]; [congruence | reflexivity].
    + rewrite Hn. reflexivity.
  - unfold FieldTypeSingleRelation.ValidateValue, FieldTypeId.ValidateValue; simpl.
    rewrite Hn. reflexivity.
Qed.

Lemma absent_input_returns_default_witness :
  FieldType_nullable (Enum (enum_abc "b")) = true /\
  default_rule_applies (Enum (enum_abc "b")) /\
  FieldType_ValidateValue plain_lib (Enum (enum_abc "b")) nil_any = (string_any "b", None).
Proof.
  split; [reflexivity|]. split; [split; [reflexivity | discriminate]|].
  apply (absent_input_returns_default plain_lib (Enum (enum_abc "b")));
    [reflexivity | split; [reflexivity | discriminate]].
Defined.

(** C7, as stated, fails on a nullable Enum over a, b, c whose provider
    yields "z": the absent input is answered with a configuration error, not
    with the configured default. *)
Lemma absent_input_enum_bad_default :
  FieldType_nullable (Enum (enum_abc "z")) = true /\
  configured_default (Enum (enum_abc "z")) = Some (string_any "z") /\
  FieldTypeEnum.ValidateValue (enum_abc "z") nil_any
  = (nil_any, Some "configuration error, invalid default value") /\
  FieldTypeEnum.ValidateValue (enum_abc "z") nil_any <> default_or_absent (Enum (enum_abc "z")).
Proof. repeat split; try reflexivity. discriminate. Qed.

(** An Enum default outside EnumValues is a configuration error whatever
    the input. *)
Lemma FieldTypeEnum_bad_default (ft : FieldTypeEnum.t) (g : unit -> string) (value : any) :
  FieldTypeEnum.CreateDefaultValue ft = Some g ->
  Contains (FieldTypeEnum.EnumValues ft) (g tt) = false ->
  FieldTypeEnum.ValidateValue ft value
  = (nil_any, Some "configuration error, invalid default value").
Proof. intros Hg Hc. unfold FieldTypeEnum.ValidateValue. rewrite Hg, Hc. reflexivity. Qed.

(** An Enum whose provider yields the empty string answers absent. *)
Lemma FieldTypeEnum_empty_default (ft : FieldTypeEnum.t) (g : unit -> string) :
  FieldTypeEnum.Nullable ft = true ->
  FieldTypeEnum.CreateDefaultValue ft = Some g ->
  Contains (FieldTypeEnum.EnumValues ft) (g tt) = true ->
  g tt = "" ->
  FieldTypeEnum.ValidateValue ft nil_any = (nil_any, None).
Proof.
  intros Hn Hg Hc He. unfold FieldTypeEnum.ValidateValue, FieldTypeEnum.validate_input.
  rewrite Hg, Hc, Hn, He. reflexivity.
Qed.

(** FieldTypeId never calls its CreateDefaultValue: a nullable Id answers an
    absent input with absent, provider or not. *)
Lemma FieldTypeId_ignores_provider (ft : FieldTypeId.t) :
  FieldTypeId.Nullable ft || FieldTypeId.PrimaryKey ft = true ->
  FieldTypeId.ValidateValue ft nil_any = (nil_any, None).
Proof. intros Hn. unfold FieldTypeId.ValidateValue. simpl. rewrite Hn. reflexivity. Qed.

Lemma FieldTypeId_ignores_provider_example :
  configured_default (Id (FieldTypeId.mk true false (Some (fun _ => "x")))) = Some (string_any "x") /\
  FieldTypeId.ValidateValue (FieldTypeId.mk true false (Some (fun _ => "x"))) nil_any
  = (nil_any, None).
Proof. split; reflexivity. Qed.

(** ** Validation: Text bounds and pattern *)

Section TextValidation.
Variable M : string -> string -> bool * error.

(** A Text field validating a present string starts with its lower bound. *)
Lemma FieldTypeText_present (ft : FieldTypeText.t) (s : string) :
  FieldTypeText.ValidateValue M ft (string_any s) = FieldTypeText.check_min M ft s.
Proof. unfold FieldTypeText.ValidateValue. simpl. reflexivity. Qed.

(** FieldTypeText reports a pattern failure only for a pattern that does not
    compile: the match result itself is dropped. *)
Lemma FieldTypeText_check_pattern (ft : FieldTypeText.t) (g : unit -> string) (s : string) :
  FieldTypeText.CreatePattern ft = Some g ->
  FieldTypeText.check_pattern M ft s =
    match snd (M (g tt) s) with
    | Some _ => (nil_any, Some ("value does not match pattern, pattern is " +:+ g tt))
    | None => (string_any s, None)
    end.
Proof. intros Hg. unfold FieldTypeText.check_pattern. rewrite Hg. reflexivity. Qed.

(** C8 (on the code): a Text field with a pattern and no length bounds
    accepts a string that does not match the pattern, as long as the pattern
    compiles. *)
Theorem FieldTypeText_accepts_pattern_mismatch
    (ft : FieldTypeText.t) (g : unit -> string) (s : string) :
  FieldTypeText.CreatePattern ft = Some g ->
  FieldTypeText.CreateMinLength ft = None ->
  FieldTypeText.CreateMaxLength ft = None ->
  M (g tt) s = (false, None) ->
  FieldTypeText.ValidateValue M ft (string_any s) = (string_any s, None).
Proof.
  intros Hg Hmin Hmax Hm. rewrite FieldTypeText_present.
  unfold FieldTypeText.check_min, FieldTypeText.check_max. rewrite Hmin, Hmax.
  rewrite (FieldTypeText_check_pattern ft g s Hg), Hm. reflexivity.
Qed.

(** A pattern that does not compile is answered with an error value for the
    field, not with a panic. *)
Lemma FieldTypeText_malformed_pattern
    (ft : FieldTypeText.t) (g : unit -> string) (s : string) (b : bool) (e : string) :
  FieldTypeText.CreatePattern ft = Some g ->
  FieldTypeText.CreateMinLength ft = None ->
  FieldTypeText.CreateMaxLength ft = None ->
  M (g tt) s = (b, Some e) ->
  FieldTypeText.ValidateValue M ft (string_any s)
  = (nil_any, Some ("value does not match pattern, pattern is " +:+ g tt)).
Proof.
  intros Hg Hmin Hmax Hm. rewrite FieldTypeText_present.
  unfold FieldTypeText.check_min, FieldTypeText.check_max. rewrite Hmin, Hmax.
  rewrite (FieldTypeText_check_pattern ft g s Hg), Hm. reflexivity.
Qed.

(** The earlier TextFieldType drops the match result in the same way. *)
Lemma TextFieldType_accepts_pattern_mismatch (nullable : bool) (pattern s : string) :
  M pattern s = (false, None) ->
  TextFieldType.ValidateValue M (TextFieldType.mk nullable None None None (Some pattern))
    (string_any s)
  = Done (pstring_any (Some s), None).
Proof.
  intros Hm. unfold TextFieldType.ValidateValue, TextFieldType.check_min,
    TextFieldType.check_pattern. simpl. rewrite Hm. reflexivity.
Qed.

(** The messages of the three Text checks are pairwise distinct. *)
Lemma too_short_not_too_long (a b : string) :
  "value too short, min length is " +:+ a <> "value too long, max length is " +:+ b.
Proof. rewrite !append_cons. discriminate. Qed.

Lemma too_short_not_pattern (a b : string) :
  "value too short, min length is " +:+ a <> "value does not match pattern, pattern is " +:+ b.
Proof. rewrite !append_cons. discriminate. Qed.

(** The current FieldTypeText checks its lower bound first: with a minimum
    length configured, a present string fails with the too-short error
    exactly when it is shorter than the minimum, with or without a maximum. *)
Lemma FieldTypeText_too_short_iff (ft : FieldTypeText.t) (g : unit -> Z) (s : string) :
  FieldTypeText.CreateMinLength ft = Some g ->
  FieldTypeText.ValidateValue M ft (string_any s)
    = (nil_any, Some ("value too short, min length is " +:+ fmt_v_int (g tt)))
  <-> Z.of_nat (String.length s) < g tt.
Proof.
  intros Hg. rewrite FieldTypeText_present. unfold FieldTypeText.check_min. rewrite Hg.
  destruct (Z.of_nat (String.length s) <? g tt) eqn:E.
  - apply Z.ltb_lt in E. tauto.
  - apply Z.ltb_ge in E. split; [|lia].
    intros H. exfalso. unfold FieldTypeText.check_max, FieldTypeText.check_pattern in H.
    destruct (FieldTypeText.CreateMaxLength ft) as [gm|].
    + destruct (Z.of_nat (String.length s) >? gm tt).
      * pose proof (too_short_not_too_long (fmt_v_int (g tt)) (fmt_v_int (gm tt))). congruence.
      * destruct (FieldTypeText.CreatePattern ft) as [gp|]; [|discriminate].
        destruct (snd (M (gp tt) s)); [|discriminate].
        pose proof (too_short_not_pattern (fmt_v_int (g tt)) (gp tt)). congruence.
    + destruct (FieldTypeText.CreatePattern ft) as [gp|]; [|discriminate].
      destruct (snd (M (gp tt) s)); [|discriminate].
      pose proof (too_short_not_pattern (fmt_v_int (g tt)) (gp tt)). congruence.
Qed.

(** C9 (on the earlier TextFieldType): its lower-bound check reads
    MaxLength. With a minimum of 2 and no maximum, validating "abc" panics on
    the nil MaxLength; with a maximum of 10, "abc" is reported too short
    although it has 3 bytes. *)
Theorem TextFieldType_min_length_reads_MaxLength :
  TextFieldType.ValidateValue M (TextFieldType.mk false None None (Some 2) None)
    (string_any "abc") = Panic /\
  TextFieldType.ValidateValue M (TextFieldType.mk false None (Some 10) (Some 2) None)
    (string_any "abc") = Done (nil_any, Some "value too short, min length is 2").
Proof. split; reflexivity. Qed.

End TextValidation.

Lemma FieldTypeText_accepts_pattern_mismatch_witness :
  FieldTypeText.CreatePattern (text_with_pattern "abc") = Some (fun _ => "abc") /\
  literal_MatchString "abc" "xyz" = (false, None) /\
  FieldTypeText.ValidateValue literal_MatchString (text_with_pattern "abc") (string_any "xyz")
  = (string_any "xyz", None).
Proof.
  split; [reflexivity|]. split; [reflexivity|].
  apply (FieldTypeText_accepts_pattern_mismatch literal_MatchString
           (text_with_pattern "abc") (fun _ => "abc") "xyz"); reflexivity.
Defined.

(** ** Reconciliation of a new collection *)

Section NewCollection.
Variable Exec : list string -> string -> error.
Variable h : Heap.

Lemma field_column_declared (fp : ptr) :
  declared_field h fp ->
  exists col, column_of h fp col /\
    forall log, field_column h fp log = (log, Continue col).
Proof.
  intros (f & fs & ty & Hf & Hfs & Hty).
  destruct (columnSQL_total (Field_Name f) ty) as [col Hcol].
  exists col. split.
  - exists f, fs, ty. auto.
  - intros log. unfold field_column, tx_bind, tx_lift.
    rewrite Hf, Hfs, Hty, Hcol. reflexivity.
Qed.

(** The loop over the fields yields one definition per field, in order, and
    executes nothing. *)
Lemma columns_of_declared_fields (l : list ptr) :
  Forall (declared_field h) l ->
  exists columns, Forall2 (column_of h) l columns /\
    forall log, tx_map (field_column h) l log = (log, Continue columns).
Proof.
  induction 1 as [|fp l Hfp _ IH].
  - exists []. split; [constructor | reflexivity].
  - destruct (field_column_declared fp Hfp) as (col & Hcol & Hrun).
    destruct IH as (columns & Hcols & Hruns).
    exists (col :: columns). split; [constructor; assumption|].
    intros log. cbn [tx_map]. unfold tx_bind. rewrite Hrun, Hruns. reflexivity.
Qed.

(** C5: a collection without a baseline, whose schema and fields are
    declared, makes SaveCollection execute exactly one statement, a CREATE
    TABLE listing one column definition per field in the declared order; the
    method returns what the database answered. *)
Theorem SaveCollection_new_collection (collection : Collection) (s : CollectionSchema) :
  Collection_original collection = None ->
  deref (cschemas h) (Collection_Schema collection) = Done s ->
  Forall (declared_field h) (Fields s) ->
  exists columns,
    Forall2 (column_of h) (Fields s) columns /\
    length columns = length (Fields s) /\
    SaveCollection Exec h collection
    = (["CREATE TABLE " +:+ Collection_Name collection +:+ " ("
         +:+ Join columns ", " +:+ ")"],
       Done (Exec [] ("CREATE TABLE " +:+ Collection_Name collection +:+ " ("
                       +:+ Join columns ", " +:+ ")"))).
Proof.
  intros Ho Hs Hfs.
  destruct (columns_of_declared_fields (Fields s) Hfs) as (columns & Hcols & Hrun).
  exists columns. split; [assumption|]. split.
  - symmetry. exact (Forall2_length _ _ _ Hcols).
  - unfold SaveCollection. rewrite Ho.
    unfold create_table, tx_bind, tx_lift. rewrite Hs, Hrun. reflexivity.
Qed.

End NewCollection.

Lemma SaveCollection_new_collection_witness :
  let h := heap_after users_decl empty_heap in
  let users := collection_at h (Some 0%nat) in
  let s := {| Fields := [Some 0; Some 1]%nat; ViewFilter := None; AllowCreate := None;
              AllowUpdate := None; AllowDelete := None |} in
  Collection_original users = None /\
  deref (cschemas h) (Collection_Schema users) = Done s /\
  Forall (declared_field h) (Fields s) /\
  exists columns,
    Forall2 (column_of h) (Fields s) columns /\
    length columns = length (Fields s) /\
    SaveCollection Exec_ok h users
    = (["CREATE TABLE " +:+ Collection_Name users +:+ " ("
         +:+ Join columns ", " +:+ ")"],
       Done (Exec_ok [] ("CREATE TABLE " +:+ Collection_Name users +:+ " ("
                          +:+ Join columns ", " +:+ ")"))).
Proof.
  intros h users s.
  assert (Hfields : Forall (declared_field h) (Fields s)).
  { repeat constructor.
    - exists {| Field_original := None; Field_Name := "id"; Field_Schema := Some 0%nat |},
             {| FieldSchema_Type := Some id_primary |}, id_primary. repeat split.
    - exists {| Field_original := None; Field_Name := "email"; Field_Schema := Some 1%nat |},
             {| FieldSchema_Type := Some text_plain |}, text_plain. repeat split. }
  split; [reflexivity|]. split; [reflexivity|]. split; [exact Hfields|].
  apply (SaveCollection_new_collection Exec_ok h users s);
    [reflexivity | reflexivity | exact Hfields].
Defined.

(** The repository's scenario: the declaration of "users" is reconciled by
    one CREATE TABLE. *)
Lemma SaveCollection_users :
  SaveCollection Exec_ok (heap_after users_decl empty_heap)
    (collection_at (heap_after users_decl empty_heap) (Some 0%nat))
  = (["CREATE TABLE users (id TEXT NULL PRIMARY KEY, email TEXT NOT NULL)"], Done None).
Proof. reflexivity. Qed.

(** ** Snapshots: what Forward stores *)

Section Snapshots.
Local Open Scope nat_scope.

Lemma mem_bind_Done {A B} (m : Mem A) (k : A -> Mem B) (h : Heap) (r : B * Heap) :
  mem_bind m k h = Done r ->
  exists a h1, m h = Done (a, h1) /\ k a h1 = Done r.
Proof.
  unfold mem_bind. destruct (m h) as [[a h1]|]; [|discriminate].
  intros H. exists a, h1. auto.
Qed.

Lemma mem_read_Done {A} (store : Heap -> list A) (p : ptr) (h : Heap) (a : A) (h' : Heap) :
  mem_read store p h = Done (a, h') -> deref (store h) p = Done a /\ h' = h.
Proof.
  unfold mem_read. destruct (deref (store h) p); [|discriminate].
  intros H. injection H as -> ->. auto.
Qed.

Lemma deref_Done {A} (store : list A) (p : ptr) (a : A) :
  deref store p = Done a <-> exists l, p = Some l /\ store !! l = Some a.
Proof.
  unfold deref. split.
  - destruct p as [l|]; [|discriminate].
    destruct (store !! l) eqn:E; [|discriminate].
    intros H. injection H as ->. eauto.
  - intros (l & -> & ->). reflexivity.
Qed.

(** Field.Clone allocates a schema and a field with no original, and
    touches nothing else. *)
Lemma Field_Clone_Done (f : Field) (h : Heap) (p : ptr) (h' : Heap) :
  Field_Clone f h = Done (p, h') ->
  exists ty, p = Some (length (fields h)) /\ h' = with_clone h f ty.
Proof.
  unfold Field_Clone. intros H.
  apply mem_bind_Done in H as (fs & h1 & Hr & H).
  apply mem_read_Done in Hr as [_ ->].
  apply mem_bind_Done in H as (sp & h2 & Hs & H).
  unfold FieldSchema_Clone in Hs. destruct (FieldSchema_Type fs) as [ty|]; [|discriminate].
  unfold new_FieldSchema in Hs. injection Hs as <- <-.
  unfold new_Field in H. cbn in H. injection H as <- <-.
  exists ty. split; reflexivity.
Qed.

(** Field.Forward points the field at a fresh clone of itself. *)
Lemma Field_Forward_Done (fp : ptr) (h : Heap) (u : unit) (h' : Heap) :
  Field_Forward fp h = Done (u, h') ->
  exists l f ty,
    fp = Some l /\ fields h !! l = Some f /\
    h' = set_Field l {| Field_original := Some (length (fields h));
                        Field_Name := Field_Name f;
                        Field_Schema := Field_Schema f |} (with_clone h f ty).
Proof.
  unfold Field_Forward. intros H.
  apply mem_bind_Done in H as (f & h1 & Hr & H).
  apply mem_read_Done in Hr as [Hf ->].
  apply deref_Done in Hf as (l & -> & Hf).
  apply mem_bind_Done in H as (cp & h2 & Hc & H).
  apply Field_Clone_Done in Hc as (ty & -> & ->).
  injection H as _ <-. exists l, f, ty. auto.
Qed.

Lemma same_collections_refl (h : Heap) : same_collections h h.
Proof. unfold same_collections. auto. Qed.

Lemma same_collections_trans (h1 h2 h3 : Heap) :
  same_collections h1 h2 -> same_collections h2 h3 -> same_collections h1 h3.
Proof.
  unfold same_collections. intros (-> & -> & ?) (-> & -> & ?). repeat split. lia.
Qed.

Lemma with_clone_same (h : Heap) (f : Field) (ty : FieldType) :
  same_collections h (with_clone h f ty).
Proof. unfold same_collections. simpl. rewrite length_app. repeat split. lia. Qed.

Lemma Field_Forward_same (fp : ptr) (h : Heap) (u : unit) (h' : Heap) :
  Field_Forward fp h = Done (u, h') -> same_collections h h'.
Proof.
  intros H. apply Field_Forward_Done in H as (l & f & ty & _ & _ & ->).
  unfold same_collections. simpl. rewrite length_insert, length_app. repeat split. lia.
Qed.

Lemma mem_map_same {A B} (step : A -> Mem B) (l : list A) :
  (forall a h b h', step a h = Done (b, h') -> same_collections h h') ->
  forall h bs h', mem_map step l h = Done (bs, h') -> same_collections h h'.
Proof.
  intros Hstep. induction l as [|a l IH]; intros h bs h' H.
  - injection H as _ <-. apply same_collections_refl.
  - cbn [mem_map] in H.
    apply mem_bind_Done in H as (b & h1 & Ha & H).
    apply mem_bind_Done in H as (bs' & h2 & Hl & H).
    injection H as _ <-.
    eapply same_collections_trans; [eapply Hstep | eapply IH]; eassumption.
Qed.

Lemma clone_loop_same (l : list ptr) (h : Heap) (ps : list ptr) (h' : Heap) :
  mem_map (fun field => mem_bind (mem_read fields field) (fun f => Field_Clone f)) l h
  = Done (ps, h') ->
  same_collections h h'.
Proof.
  apply mem_map_same. clear. intros fp h p h' H.
  apply mem_bind_Done in H as (f & h1 & Hr & H).
  apply mem_read_Done in Hr as [_ ->].
  apply Field_Clone_Done in H as (ty & _ & ->). apply with_clone_same.
Qed.

Lemma forward_loop_same (l : list ptr) (h : Heap) (us : list unit) (h' : Heap) :
  mem_map Field_Forward l h = Done (us, h') -> same_collections h h'.
Proof. apply mem_map_same. exact Field_Forward_same. Qed.

(** Collection.Forward, step by step: the clone of the collection is a new
    Collection whose Schema is a new CollectionSchema equal to the live one,
    field pointers included. *)
Lemma Collection_Forward_Done (l : nat) (h : Heap) (u : unit) (h' : Heap) :
  Collection_Forward (Some l) h = Done (u, h') ->
  exists c s h1,
    collections h !! l = Some c /\
    deref (cschemas h) (Collection_Schema c) = Done s /\
    length (fields h) <= length (fields h1) /\
    mem_map Field_Forward (Fields s) h1 = Done (replicate (length (Fields s)) tt, h') /\
    collections h' =
      <[l := {| Collection_original := Some (length (collections h));
                Collection_Name := Collection_Name c;
                Collection_Schema := Collection_Schema c |}]>
        (collections h ++ [{| Collection_original := None;
                              Collection_Name := Collection_Name c;
                              Collection_Schema := Some (length (cschemas h)) |}]) /\
    cschemas h' = cschemas h ++ [s].
Proof.
  unfold Collection_Forward. intros H.
  apply mem_bind_Done in H as (c & h0 & Hr & H).
  apply mem_read_Done in Hr as [Hc ->].
  apply deref_Done in Hc as (l' & [= <-] & Hc).
  apply mem_bind_Done in H as (cl & h3 & Hcl & H).
  unfold Collection_Clone in Hcl.
  apply mem_bind_Done in Hcl as (s & h0 & Hr & Hcl).
  apply mem_read_Done in Hr as [Hs ->].
  apply mem_bind_Done in Hcl as (sp & h2 & Hsc & Hcl).
  unfold CollectionSchema_Clone in Hsc.
  apply mem_bind_Done in Hsc as (ps & h1 & Hloop & Hsc).
  apply clone_loop_same in Hloop as (Hc1 & Hs1 & Hf1).
  unfold new_CollectionSchema in Hsc. injection Hsc as <- <-.
  unfold new_Collection in Hcl. cbn in Hcl. injection Hcl as <- <-.
  apply mem_bind_Done in H as ([] & h4 & Hset & H).
  injection Hset as <-.
  apply mem_bind_Done in H as (s' & h5 & Hr & H).
  apply mem_read_Done in Hr as [Hs' ->]. cbn in Hs'.
  rewrite Hs1 in Hs'.
  assert (s' = s) as ->.
  { apply deref_Done in Hs as (ls & Hp & Hs). rewrite Hp in Hs'. cbn in Hs'.
    rewrite (lookup_app_l_Some _ _ _ _ Hs) in Hs'. congruence. }
  apply mem_bind_Done in H as (us & h6 & Hfw & H).
  injection H as _ <-.
  pose proof (forward_loop_same _ _ _ _ Hfw) as (Hc6 & Hs6 & _).
  cbn in Hc6, Hs6. rewrite Hc1 in Hc6. rewrite Hs1 in Hs6.
  assert (Hus : us = replicate (length (Fields s)) tt).
  { clear -Hfw. revert us h6 Hfw.
    match goal with |- forall us h6, mem_map _ _ ?h0 = _ -> _ => generalize h0 end.
    induction (Fields s) as [|fp fl IH]; intros h0 us h6 H.
    - injection H as <- _. reflexivity.
    - cbn [mem_map] in H.
      apply mem_bind_Done in H as ([] & h7 & _ & H).
      apply mem_bind_Done in H as (us' & h8 & Hl & H).
      injection H as <- _. cbn. f_equal. eapply IH. exact Hl. }
  subst us.
  match type of Hfw with mem_map _ _ ?h0 = _ => exists c, s, h0 end.
  split; [exact Hc|]. split; [exact Hs|]. split; [exact Hf1|].
  split; [exact Hfw|]. split; [|exact Hs6].
  rewrite Hc6, Hs1. reflexivity.
Qed.

End Snapshots.

(** ** Forward, then reconcile *)

Section ForwardThenSave.
Local Open Scope nat_scope.

(** After Forward, the baseline collection's schema is a
    copy of the live schema struct and so holds the very same field pointers:
    what the baseline records of a field is read from the live Field. *)
Lemma Collection_Forward_shares_fields
    (l : nat) (h : Heap) (c : Collection) (s : CollectionSchema) (u : unit) (h' : Heap) :
  collections h !! l = Some c ->
  deref (cschemas h) (Collection_Schema c) = Done s ->
  Collection_Forward (Some l) h = Done (u, h') ->
  exists c' ol o,
    collections h' !! l = Some c' /\
    Collection_original c' = Some ol /\
    collections h' !! ol = Some o /\
    Collection_Name c' = Collection_Name c /\
    Collection_Name o = Collection_Name c /\
    deref (cschemas h') (Collection_Schema c') = Done s /\
    deref (cschemas h') (Collection_Schema o) = Done s.
Proof.
  intros Hc0 Hs0 H. apply Collection_Forward_Done in H
    as (c1 & s1 & h1 & Hc & Hs & _ & _ & Hcs & Hss).
  assert (c1 = c) as -> by congruence.
  assert (s1 = s) as -> by congruence.
  pose proof (lookup_lt_Some _ _ _ Hc) as Hl.
  eexists _, (length (collections h)), _. rewrite Hcs, Hss.
  split; [|split; [|split; [|split; [|split; [|split]]]]].
  - apply list_lookup_insert_eq. rewrite length_app. lia.
  - reflexivity.
  - rewrite list_lookup_insert_ne by lia. apply list_lookup_middle. reflexivity.
  - reflexivity.
  - reflexivity.
  - cbn. apply deref_Done in Hs as (ls & -> & Hs). cbn.
    rewrite (lookup_app_l_Some _ _ _ _ Hs). reflexivity.
  - cbn. rewrite list_lookup_middle by reflexivity. reflexivity.
Qed.

Lemma Field_Forward_makes (N l0 : nat) (h : Heap) (u : unit) (h' : Heap) :
  l0 < N -> N <= length (fields h) ->
  Field_Forward (Some l0) h = Done (u, h') ->
  forwarded N l0 h'.
Proof.
  intros Hl HN H. apply Field_Forward_Done in H as (l & f & ty & [= <-] & Hf & ->).
  eexists _, (length (fields h)), _. cbn. split; [|split; [|split; [|split; [|split]]]].
  - apply list_lookup_insert_eq. rewrite length_app. lia.
  - reflexivity.
  - lia.
  - rewrite list_lookup_insert_ne by lia. apply list_lookup_middle. reflexivity.
  - reflexivity.
  - reflexivity.
Qed.

Lemma Field_Forward_keeps (N l0 l : nat) (h : Heap) (u : unit) (h' : Heap) :
  l < N -> N <= length (fields h) ->
  forwarded N l0 h ->
  Field_Forward (Some l) h = Done (u, h') ->
  forwarded N l0 h'.
Proof.
  intros Hl HN (f & n & nf & Hf & Ho & Hn & Hnf & Hno & Hname) H.
  destruct (decide (l = l0)) as [->|Hne].
  - eapply Field_Forward_makes; eassumption.
  - apply Field_Forward_Done in H as (l' & g & ty & [= <-] & Hg & ->).
    exists f, n, nf. cbn. split; [|split; [|split; [|split; [|split]]]]; try assumption.
    + rewrite list_lookup_insert_ne by assumption. apply lookup_app_l_Some, Hf.
    + rewrite list_lookup_insert_ne by lia. apply lookup_app_l_Some, Hnf.
Qed.

Lemma forward_loop_keeps (N l0 : nat) (l : list ptr) :
  Forall (fun fp => exists i, fp = Some i /\ i < N) l ->
  forall h us h',
    N <= length (fields h) ->
    forwarded N l0 h ->
    mem_map Field_Forward l h = Done (us, h') ->
    forwarded N l0 h'.
Proof.
  induction 1 as [|fp l (i & -> & Hi) _ IH]; intros h us h' HN Hfw H.
  - injection H as _ <-. exact Hfw.
  - cbn [mem_map] in H.
    apply mem_bind_Done in H as (u & h1 & Hstep & H).
    apply mem_bind_Done in H as (us' & h2 & Hloop & H).
    injection H as _ <-.
    pose proof (Field_Forward_same _ _ _ _ Hstep) as (_ & _ & Hlen).
    eapply IH; [| |exact Hloop]; [lia|].
    eapply Field_Forward_keeps; eassumption.
Qed.

(** After Forward, the first field of the collection points at a clone that
    has no original of its own. *)
Lemma Collection_Forward_first_field
    (l : nat) (h : Heap) (c : Collection) (s : CollectionSchema)
    (l0 : nat) (rest : list ptr) (u : unit) (h' : Heap) :
  collections h !! l = Some c ->
  deref (cschemas h) (Collection_Schema c) = Done s ->
  Fields s = Some l0 :: rest ->
  Forall (live_field h) (Fields s) ->
  Collection_Forward (Some l) h = Done (u, h') ->
  forwarded (length (fields h)) l0 h'.
Proof.
  intros Hc Hs Hfs Hlive H.
  apply Collection_Forward_Done in H
    as (c' & s' & h1 & Hc' & Hs' & Hlen & Hloop & _ & _).
  assert (c' = c) as -> by congruence.
  assert (s' = s) as -> by congruence.
  rewrite Hfs in Hloop, Hlive. cbn [mem_map] in Hloop.
  apply mem_bind_Done in Hloop as (u1 & h2 & Hstep & Hloop).
  apply mem_bind_Done in Hloop as (us & h3 & Hrest & Hloop).
  replace h' with h3 by (unfold mem_ret in Hloop; congruence).
  apply Forall_cons in Hlive as [(i & [= <-] & Hi) Hlive].
  pose proof (Field_Forward_same _ _ _ _ Hstep) as (_ & _ & Hlen2).
  eapply forward_loop_keeps; [| |eapply Field_Forward_makes; eassumption|exact Hrest].
  - eapply Forall_impl; [exact Hlive|]. intros fp (j & -> & Hj). eauto.
  - lia.
Qed.

Lemma is_create_field_quiet (h : Heap) (fp : ptr) (log : list string) :
  (exists b, is_create_field h fp log = (log, Continue b)) \/
  is_create_field h fp log = (log, Panicked).
Proof.
  unfold is_create_field, tx_bind, tx_lift.
  destruct (deref (fields h) fp) as [f|]; [left; eexists|right]; reflexivity.
Qed.

(** Picking the fields to create executes nothing and returns no error. *)
Lemma create_filter_quiet (h : Heap) (l : list ptr) (log : list string) :
  (exists keep, tx_filter (is_create_field h) l log = (log, Continue keep)) \/
  tx_filter (is_create_field h) l log = (log, Panicked).
Proof.
  induction l as [|fp l IH]; [left; exists []; reflexivity|].
  cbn [tx_filter]. unfold tx_bind.
  destruct (is_create_field_quiet h fp log) as [(b & ->)| ->]; [|right; reflexivity].
  destruct IH as [(keep & ->)| ->]; [left; eexists|right]; reflexivity.
Qed.

(** On a forwarded first field the rename test reads the Name of a nil
    original. *)
Lemma is_rename_field_forwarded (N l0 : nat) (h : Heap) (log : list string) :
  forwarded N l0 h -> is_rename_field h (Some l0) log = (log, Panicked).
Proof.
  intros (f & n & nf & Hf & Ho & _ & Hnf & Hno & _).
  unfold is_rename_field, tx_bind, tx_lift. cbn. rewrite Hf, Ho. cbn.
  rewrite Hnf, Hno. reflexivity.
Qed.

(** C1 (on the code): for a collection with at least one field, Forward
    followed by SaveCollection on the unchanged collection does not complete:
    the rename filter dereferences the nil [original] of the first field's
    clone and the method panics, before any statement is executed. *)
Theorem Forward_then_SaveCollection_panics
    (Exec : list string -> string -> error)
    (l : nat) (h : Heap) (c : Collection) (s : CollectionSchema)
    (l0 : nat) (rest : list ptr) (u : unit) (h' : Heap) :
  collections h !! l = Some c ->
  deref (cschemas h) (Collection_Schema c) = Done s ->
  Fields s = Some l0 :: rest ->
  Forall (live_field h) (Fields s) ->
  Collection_Forward (Some l) h = Done (u, h') ->
  SaveCollection Exec h' (collection_at h' (Some l)) = ([], Panic).
Proof.
  intros Hc Hs Hfs Hlive H.
  pose proof (Collection_Forward_first_field _ _ _ _ _ _ _ _ Hc Hs Hfs Hlive H) as Hfw.
  destruct (Collection_Forward_shares_fields _ _ _ _ _ _ Hc Hs H)
    as (c' & ol & o & Hc' & Hol & Ho & Hn' & Hno & Hs' & _).
  unfold collection_at. cbn. rewrite Hc'.
  unfold SaveCollection. rewrite Hol.
  unfold alter_table. unfold tx_bind at 1. unfold tx_lift at 1. rewrite Hol. cbn.
  rewrite Ho. unfold tx_bind at 1. unfold rename_table.
  rewrite Hno, Hn', String.eqb_refl. cbn.
  unfold tx_bind at 1. unfold tx_lift at 1. rewrite Hs'.
  unfold tx_bind at 1.
  destruct (create_filter_quiet h' (Fields s) []) as [(keep & ->)| ->]; [|reflexivity].
  unfold tx_bind at 1. rewrite Hfs. cbn [tx_filter]. unfold tx_bind at 1.
  rewrite (is_rename_field_forwarded _ _ _ _ Hfw). reflexivity.
Qed.

Lemma Forward_then_SaveCollection_panics_witness :
  let h := heap_after users_decl empty_heap in
  let h' := heap_after users_fwd empty_heap in
  Collection_Forward (Some 0) h = Done (tt, h') /\
  SaveCollection Exec_ok h' (collection_at h' (Some 0)) = ([], Panic).
Proof.
  intros h h'. split; [reflexivity|].
  apply (Forward_then_SaveCollection_panics Exec_ok 0 h
           {| Collection_original := None; Collection_Name := "users";
              Collection_Schema := Some 0 |}
           {| Fields := [Some 0; Some 1]; ViewFilter := None; AllowCreate := None;
              AllowUpdate := None; AllowDelete := None |}
           0 [Some 1] tt h').
  - reflexivity.
  - reflexivity.
  - reflexivity.
  - repeat constructor.
    + exists 0. split; [reflexivity | cbn; lia].
    + exists 1. split; [reflexivity | cbn; lia].
  - reflexivity.
Defined.

(** A collection without fields is the one case in which the second pass
    completes, and it executes nothing. *)
Lemma Forward_then_SaveCollection_no_fields
    (Exec : list string -> string -> error)
    (l : nat) (h : Heap) (c : Collection) (s : CollectionSchema) (u : unit) (h' : Heap) :
  collections h !! l = Some c ->
  deref (cschemas h) (Collection_Schema c) = Done s ->
  Fields s = [] ->
  Collection_Forward (Some l) h = Done (u, h') ->
  SaveCollection Exec h' (collection_at h' (Some l)) = ([], Done None).
Proof.
  intros Hc Hs Hfs H.
  destruct (Collection_Forward_shares_fields _ _ _ _ _ _ Hc Hs H)
    as (c' & ol & o & Hc' & Hol & Ho & Hn' & Hno & Hs' & Hso).
  unfold collection_at. cbn. rewrite Hc'.
  unfold SaveCollection. rewrite Hol.
  unfold alter_table. unfold tx_bind at 1. unfold tx_lift at 1. rewrite Hol. cbn.
  rewrite Ho. unfold tx_bind at 1. unfold rename_table.
  rewrite Hno, Hn', String.eqb_refl. cbn.
  unfold tx_bind at 1. unfold tx_lift at 1. rewrite Hs'.
  unfold tx_bind at 1. rewrite Hfs. cbn.
  unfold tx_bind at 1. unfold tx_lift at 1. rewrite Hso. rewrite Hfs. reflexivity.
Qed.

(** C3 (on the code): with one text field "a", right after Forward the
    baseline records "a"; assigning the live field's Name, or its type,
    changes what the baseline records in the same way. *)
Theorem Forward_baseline_follows_live_field :
  baseline_fields (heap_after notes_fwd empty_heap) (Some 0) = Done [("a", Some text_plain)] /\
  baseline_fields (heap_after notes_renamed empty_heap) (Some 0)
  = Done [("b", Some text_plain)] /\
  baseline_fields (heap_after notes_retyped empty_heap) (Some 0)
  = Done [("a", Some id_primary)].
Proof. repeat split. Qed.

(** The clone each field keeps in its own [original] is independent: after
    the renaming it still carries the name "a". *)
Lemma Field_original_keeps_name :
  let h := heap_after notes_renamed empty_heap in
  deref (fields h) (Some 0)
  = Done {| Field_original := Some 2; Field_Name := "b"; Field_Schema := Some 0 |} /\
  deref (fields h) (Some 2)
  = Done {| Field_original := None; Field_Name := "a"; Field_Schema := Some 2 |}.
Proof. split; reflexivity. Qed.

(** C4 (on the code): the baseline has a field "a" and the live field, whose
    original back-pointer carries "a", is renamed to "b". Whatever the
    database answers, SaveCollection executes no RENAME COLUMN: it panics in
    the rename filter with nothing executed. *)
Theorem renamed_field_SaveCollection_panics (Exec : list string -> string -> error) :
  let h := heap_after notes_renamed empty_heap in
  run_bind (deref (fields h) (Some 0)) (fun f =>
    run_bind (deref (fields h) (Field_original f)) (fun o =>
      Done (Field_Name o, Field_Name f))) = Done ("a", "b") /\
  SaveCollection Exec h (collection_at h (Some 0)) = ([], Panic).
Proof. split; reflexivity. Qed.

End ForwardThenSave.

(* ===================================================================== *)
(** * Further properties of the code                                      *)
(* ===================================================================== *)

(** ** Identifiers, continued *)

(** X1: ValidateId accepts a string exactly when it has 31 bytes, each of
    them a hexadecimal digit in either case. *)
Theorem ValidateId_accepts_exactly (s : string) :
  ValidateId (string_any s) = None <->
  String.length s = 31%nat /\ all_bytes is_hex s = true.
Proof. exact (ValidateId_accepts s). Qed.

(** X2: in an accepted id, overwriting the byte at any index with a byte
    that is not a hexadecimal digit yields a string ValidateId refuses as not
    being a hex string. *)
Theorem ValidateId_one_byte_mutation (s : string) (i : nat) (c : ascii) :
  ValidateId (string_any s) = None ->
  (i < 31)%nat -> is_hex c = false ->
  ValidateId (string_any (set_byte i c s)) = Some "invalid id, expcted hex string".
Proof. exact (ValidateId_mutation_rejected s i c). Qed.

Lemma ValidateId_one_byte_mutation_witness :
  ValidateId (string_any (GenerateId now_4253 zero8)) = None /\
  (7 < 31)%nat /\ is_hex "G" = false /\
  ValidateId (string_any (set_byte 7 "G" (GenerateId now_4253 zero8)))
  = Some "invalid id, expcted hex string".
Proof.
  split; [reflexivity|]. split; [lia|]. split; [reflexivity|].
  apply (ValidateId_one_byte_mutation (GenerateId now_4253 zero8) 7 "G");
    [reflexivity | lia | reflexivity].
Defined.

(** X3: a string of any length other than 31 is refused with the length
    error, whatever its bytes; so is every accepted id cut short or extended. *)
Theorem ValidateId_wrong_length (s : string) :
  String.length s <> 31%nat ->
  ValidateId (string_any s) = Some "invalid id, expected string of length 31".
Proof.
  intros Hl. unfold ValidateId, requiredLen.
  destruct (String.length s =? 31)%nat eqn:E; [|reflexivity].
  apply Nat.eqb_eq in E. contradiction.
Qed.

Lemma ValidateId_wrong_length_witness :
  String.length (drop_last (GenerateId now_4253 zero8)) <> 31%nat /\
  ValidateId (string_any (drop_last (GenerateId now_4253 zero8)))
  = Some "invalid id, expected string of length 31".
Proof.
  split; [discriminate|].
  apply (ValidateId_wrong_length (drop_last (GenerateId now_4253 zero8))). discriminate.
Defined.

Lemma all_bytes_append (p : ascii -> bool) (a b : string) :
  all_bytes p (a +:+ b) = all_bytes p a && all_bytes p b.
Proof.
  induction a as [|c a IH]; [reflexivity|].
  rewrite append_cons. cbn [all_bytes]. rewrite IH. apply andb_assoc.
Qed.

Lemma is_hex_hex_digit (n : N) : is_hex (hex_digit n) = true.
Proof.
  destruct n as [|p]; [reflexivity|].
  do 4 (try destruct p as [p|p|]); reflexivity.
Qed.

Lemma all_hex_fmt_x_bytes (bs : list Byte.byte) : all_bytes is_hex (fmt_x_bytes bs) = true.
Proof.
  induction bs as [|b bs IH]; [reflexivity|].
  cbn [fmt_x_bytes all_bytes]. rewrite !is_hex_hex_digit, IH. reflexivity.
Qed.

(** The digits printed for a positive number are hexadecimal digits. *)
Lemma all_hex_of_pos (k : nat) :
  forall (p : positive) (rest : string),
    16 ^ Z.of_nat k <= Z.pos p < 16 ^ Z.of_nat (S k) ->
    all_bytes is_hex (HexString.Raw.of_pos p rest) = all_bytes is_hex rest.
Proof.
  induction k as [|k IH]; intros p rest Hp.
  - change (16 ^ Z.of_nat 1) with 16 in Hp. change (16 ^ Z.of_nat 0) with 1 in Hp.
    do 4 (try destruct p as [p|p|]); try lia; reflexivity.
  - rewrite !Nat2Z.inj_succ, !Z.pow_succ_r in Hp by lia.
    assert (H16 : 1 <= 16 ^ Z.of_nat k) by (apply Z.lt_pred_le, Z.pow_pos_nonneg; lia).
    do 4 (try destruct p as [p|p|]); try lia;
      cbn [HexString.Raw.of_pos];
      (rewrite IH; [reflexivity
                   | rewrite Nat2Z.inj_succ, Z.pow_succ_r by lia; lia]).
Qed.

(** Every positive number has a number of hexadecimal digits. *)
Lemma hex_digits_exist (p : positive) :
  exists k : nat, 16 ^ Z.of_nat k <= Z.pos p < 16 ^ Z.of_nat (S k).
Proof.
  pose proof (Z.log2_spec (Z.pos p) (Pos2Z.is_pos p)) as [Hlo Hhi].
  pose proof (Z.log2_nonneg (Z.pos p)) as Hn.
  set (n := Z.log2 (Z.pos p)) in *.
  exists (Z.to_nat (n / 4)).
  rewrite Nat2Z.inj_succ, Z2Nat.id by (apply Z.div_pos; lia).
  pose proof (Z.div_mod n 4 ltac:(lia)) as Hdm.
  pose proof (Z.mod_pos_bound n 4 ltac:(lia)) as Hm.
  assert (Hq : 0 <= n / 4) by (apply Z.div_pos; lia).
  change 16 with (2 ^ 4). rewrite <- !Z.pow_mul_r by lia.
  split.
  - eapply Z.le_trans; [|exact Hlo]. apply Z.pow_le_mono_r; lia.
  - eapply Z.lt_le_trans; [exact Hhi|]. apply Z.pow_le_mono_r; lia.
Qed.

(** X4: for a clock reading whose microsecond value fits a non-negative
    int64, and 8 bytes of entropy, the generated id passes ValidateId exactly
    when that value lies between 2^56 and 2^60, that is when it prints as 15
    hexadecimal digits. *)
Theorem GenerateId_valid_iff (UnixMilli : Z) (entropy : list Byte.byte) :
  length entropy = 8%nat ->
  0 <= UnixMilli * 1000 < 2 ^ 63 ->
  ValidateId (string_any (GenerateId UnixMilli entropy)) = None <->
  2 ^ 56 <= UnixMilli * 1000 < 2 ^ 60.
Proof.
  intros He Hts. rewrite ValidateId_accepts. unfold GenerateId.
  rewrite int64_wrap_small by lia.
  rewrite length_append, all_bytes_append, length_fmt_x_bytes, all_hex_fmt_x_bytes, He.
  destruct (UnixMilli * 1000) as [|p|p] eqn:E; try lia.
  - cbn. split; [intros [H _]; discriminate | lia].
  - cbn [fmt_x_int64].
    destruct (hex_digits_exist p) as [k Hk].
    rewrite (length_hex_of_pos k p "" Hk), (all_hex_of_pos k p "" Hk).
    cbn [String.length all_bytes andb].
    change (2 ^ 56) with (16 ^ Z.of_nat 14). change (2 ^ 60) with (16 ^ Z.of_nat 15).
    split.
    + intros [Hl _]. assert (k = 14%nat) as -> by lia. exact Hk.
    + intros Hr. split; [|reflexivity].
      destruct (Nat.lt_trichotomy k 14) as [Hlt|[->|Hgt]]; [exfalso|reflexivity|exfalso].
      * assert (16 ^ Z.of_nat (S k) <= 16 ^ Z.of_nat 14)
          by (apply Z.pow_le_mono_r; lia). lia.
      * assert (16 ^ Z.of_nat 15 <= 16 ^ Z.of_nat k)
          by (apply Z.pow_le_mono_r; lia). lia.
Qed.

Lemma GenerateId_valid_iff_witness :
  length zero8 = 8%nat /\
  0 <= now_2023 * 1000 < 2 ^ 63 /\
  (ValidateId (string_any (GenerateId now_2023 zero8)) = None <->
   2 ^ 56 <= now_2023 * 1000 < 2 ^ 60) /\
  ValidateId (string_any (GenerateId now_4253 zero8)) = None.
Proof.
  split; [reflexivity|]. split; [unfold now_2023; lia|]. split.
  - apply (GenerateId_valid_iff now_2023 zero8); [reflexivity | unfold now_2023; lia].
  - apply (GenerateId_valid_iff now_4253 zero8);
      [reflexivity | unfold now_4253; lia | unfold now_4253; lia].
Defined.

(** *** GenerateId is injective *)

Lemma append_inj_length (a1 b1 a2 b2 : string) :
  String.length a1 = String.length a2 ->
  a1 +:+ b1 = a2 +:+ b2 -> a1 = a2 /\ b1 = b2.
Proof.
  revert a2. induction a1 as [|c a1 IH]; intros [|d a2] Hl H; try discriminate.
  - auto.
  - rewrite !append_cons in H. injection H as -> H. injection Hl as Hl.
    destruct (IH a2 Hl H) as [-> ->]. auto.
Qed.

(** Reading the digits back gives the number that was printed. *)
Lemma to_N_fmt_x_int64 (z : Z) :
  0 <= z -> HexString.Raw.to_N (fmt_x_int64 z) 0 = Z.to_N z.
Proof.
  intros Hz. destruct z as [|p|p]; try lia; [reflexivity|].
  cbn [fmt_x_int64]. rewrite HexString.Raw.to_N_of_pos. reflexivity.
Qed.

Lemma fmt_x_int64_inj (z1 z2 : Z) :
  0 <= z1 -> 0 <= z2 -> fmt_x_int64 z1 = fmt_x_int64 z2 -> z1 = z2.
Proof.
  intros H1 H2 H. apply (f_equal (fun s => HexString.Raw.to_N s 0)) in H.
  rewrite !to_N_fmt_x_int64 in H by assumption. lia.
Qed.

Lemma ascii_to_digit_hex_digit (n : N) :
  (n < 16)%N -> HexString.ascii_to_digit (hex_digit n) = Some n.
Proof.
  intros Hn. destruct n as [|p]; [reflexivity|].
  do 4 (try destruct p as [p|p|]); try reflexivity; lia.
Qed.

Lemma hex_digit_inj (m n : N) :
  (m < 16)%N -> (n < 16)%N -> hex_digit m = hex_digit n -> m = n.
Proof.
  intros Hm Hn H. apply (f_equal HexString.ascii_to_digit) in H.
  rewrite !ascii_to_digit_hex_digit in H by assumption. congruence.
Qed.

Lemma Byte_to_N_bound (b : Byte.byte) : (Byte.to_N b < 256)%N.
Proof. destruct b; reflexivity. Qed.

Lemma Byte_to_N_inj (b1 b2 : Byte.byte) : Byte.to_N b1 = Byte.to_N b2 -> b1 = b2.
Proof.
  intros H. apply (f_equal Byte.of_N) in H. rewrite !Byte.of_to_N in H. congruence.
Qed.

Lemma fmt_x_bytes_inj (bs1 bs2 : list Byte.byte) :
  fmt_x_bytes bs1 = fmt_x_bytes bs2 -> bs1 = bs2.
Proof.
  revert bs2. induction bs1 as [|b1 bs1 IH]; intros [|b2 bs2] H; try discriminate.
  - reflexivity.
  - cbn [fmt_x_bytes] in H. injection H as Hhi Hlo H.
    pose proof (Byte_to_N_bound b1) as B1. pose proof (Byte_to_N_bound b2) as B2.
    apply hex_digit_inj in Hhi;
      [|apply N.Div0.div_lt_upper_bound; lia|apply N.Div0.div_lt_upper_bound; lia].
    apply hex_digit_inj in Hlo; [|apply N.mod_lt; lia|apply N.mod_lt; lia].
    f_equal; [|apply IH; exact H].
    apply Byte_to_N_inj.
    rewrite (N.div_mod (Byte.to_N b1) 16), (N.div_mod (Byte.to_N b2) 16) by lia.
    congruence.
Qed.

(** X5: GenerateId never gives the same id for two different inputs: over
    clock readings whose microsecond value fits a non-negative int64 and
    entropies of 8 bytes, equal ids come from equal readings and equal
    entropies. *)
Theorem GenerateId_injective (ms1 ms2 : Z) (e1 e2 : list Byte.byte) :
  length e1 = 8%nat -> length e2 = 8%nat ->
  0 <= ms1 * 1000 < 2 ^ 63 -> 0 <= ms2 * 1000 < 2 ^ 63 ->
  GenerateId ms1 e1 = GenerateId ms2 e2 ->
  ms1 = ms2 /\ e1 = e2.
Proof.
  intros He1 He2 H1 H2 H. unfold GenerateId in H.
  rewrite !int64_wrap_small in H by lia.
  assert (Hlen : String.length (fmt_x_int64 (ms1 * 1000))
                 = String.length (fmt_x_int64 (ms2 * 1000))).
  { apply (f_equal String.length) in H.
    rewrite !length_append, !length_fmt_x_bytes, He1, He2 in H. lia. }
  destruct (append_inj_length _ _ _ _ Hlen H) as [Hts Hen].
  apply fmt_x_int64_inj in Hts; [|lia|lia].
  apply fmt_x_bytes_inj in Hen. split; [lia | assumption].
Qed.

Lemma GenerateId_injective_witness :
  length zero8 = 8%nat /\ length zero8 = 8%nat /\
  0 <= now_2023 * 1000 < 2 ^ 63 /\
  GenerateId now_2023 zero8 = GenerateId now_2023 zero8 /\
  GenerateId now_2023 zero8 <> GenerateId now_2023 ones8 /\
  (now_2023 = now_2023 /\ zero8 = zero8).
Proof.
  split; [reflexivity|]. split; [reflexivity|]. split; [unfold now_2023; lia|].
  split; [reflexivity|]. split; [discriminate|].
  apply (GenerateId_injective now_2023 now_2023 zero8 zero8);
    [reflexivity | reflexivity | unfold now_2023; lia | unfold now_2023; lia | reflexivity].
Defined.

(** ** Validation, continued *)

(** X6: an absent input to a variant that is not nullable is refused with
    "invalid value, expected non-null"; for an Enum this presumes a default
    among its values, since that check comes first. *)
Theorem absent_input_non_nullable (lib : GoLib) (ft : FieldType) :
  FieldType_nullable ft = false ->
  (forall e, ft = Enum e -> enum_default_valid e) ->
  FieldType_ValidateValue lib ft nil_any = (nil_any, Some "invalid value, expected non-null").
Proof.
  intros Hn He.
  destruct ft as [ft|ft|ft|ft|ft|ft|ft|ft]; cbn in Hn |- *.
  - unfold FieldTypeId.ValidateValue. cbn. rewrite Hn. reflexivity.
  - unfold FieldTypeText.ValidateValue. cbn. rewrite Hn. reflexivity.
  - unfold FieldTypeInt.ValidateValue. cbn. rewrite Hn. reflexivity.
  - unfold FieldTypeFloat.ValidateValue. cbn. rewrite Hn. reflexivity.
  - unfold FieldTypeBool.ValidateValue. cbn. rewrite Hn. reflexivity.
  - unfold FieldTypeDateTime.ValidateValue. cbn. rewrite Hn. reflexivity.
  - specialize (He ft eq_refl). unfold enum_default_valid in He.
    unfold FieldTypeEnum.ValidateValue, FieldTypeEnum.validate_input.
    destruct (FieldTypeEnum.CreateDefaultValue ft) as [g|].
    + rewrite He. cbn. rewrite Hn. reflexivity.
    + cbn. rewrite Hn. reflexivity.
  - unfold FieldTypeSingleRelation.ValidateValue, FieldTypeId.ValidateValue. cbn.
    rewrite Hn. reflexivity.
Qed.

Lemma absent_input_non_nullable_witness :
  FieldType_nullable text_plain = false /\
  (forall e, text_plain = Enum e -> enum_default_valid e) /\
  FieldType_ValidateValue plain_lib text_plain nil_any
  = (nil_any, Some "invalid value, expected non-null").
Proof.
  split; [reflexivity|]. split; [intros e H; discriminate H|].
  apply (absent_input_non_nullable plain_lib text_plain);
    [reflexivity | intros e H; discriminate H].
Defined.

Lemma within_bounds_min (g : unit -> Z) (hi : option (unit -> Z)) (i : Z) :
  i < g tt -> ~ within_bounds (Some g) hi i.
Proof. intros Hlt [Hlo _]. specialize (Hlo g eq_refl). lia. Qed.

Lemma within_bounds_max (lo : option (unit -> Z)) (g : unit -> Z) (i : Z) :
  g tt < i -> ~ within_bounds lo (Some g) i.
Proof. intros Hlt [_ Hhi]. specialize (Hhi g eq_refl). lia. Qed.

Lemma within_bounds_intro (lo hi : option (unit -> Z)) (i : Z) :
  match lo with Some g => g tt <= i | None => True end ->
  match hi with Some g => i <= g tt | None => True end ->
  within_bounds lo hi i.
Proof.
  intros Hlo Hhi. split; intros g ->; assumption.
Qed.

(** X7: FieldTypeInt accepts a present integer, and returns it, exactly when
    it respects the configured bounds, both of which are inclusive. *)
Theorem FieldTypeInt_accepts_iff (ft : FieldTypeInt.t) (i : Z) :
  FieldTypeInt.ValidateValue ft (int64_any i) = (int64_any i, None) <->
  within_bounds (FieldTypeInt.CreateMinValue ft) (FieldTypeInt.CreateMaxValue ft) i.
Proof.
  unfold FieldTypeInt.ValidateValue, FieldTypeInt.check_max. cbn.
  destruct (FieldTypeInt.CreateMinValue ft) as [gmin|];
    destruct (FieldTypeInt.CreateMaxValue ft) as [gmax|]; cbn;
    repeat match goal with
    | |- context [?a <? ?b] => destruct (Z.ltb_spec a b)
    | |- context [?a >? ?b] => rewrite (Z.gtb_ltb a b); destruct (Z.ltb_spec b a)
    end;
    (split;
     [ intros Hacc; try discriminate Hacc; apply within_bounds_intro; cbn; (lia || exact I)
     | intros Hin; try reflexivity; exfalso;
       first [ eapply within_bounds_min; [|exact Hin]; cbn; lia
             | eapply within_bounds_max; [|exact Hin]; cbn; lia ] ]).
Qed.

(** X8: FieldTypeText accepts a present string, and returns it, exactly
    when its byte length respects the configured bounds, both inclusive, and
    the configured pattern, if any, compiles; whether the string matches the
    pattern plays no part. *)
Theorem FieldTypeText_accepts_iff
    (M : string -> string -> bool * error) (ft : FieldTypeText.t) (s : string) :
  FieldTypeText.ValidateValue M ft (string_any s) = (string_any s, None) <->
  within_bounds (FieldTypeText.CreateMinLength ft) (FieldTypeText.CreateMaxLength ft)
    (Z.of_nat (String.length s)) /\
  (forall g, FieldTypeText.CreatePattern ft = Some g -> snd (M (g tt) s) = None).
Proof.
  rewrite FieldTypeText_present.
  unfold FieldTypeText.check_min, FieldTypeText.check_max, FieldTypeText.check_pattern.
  destruct (FieldTypeText.CreateMinLength ft) as [gmin|];
    destruct (FieldTypeText.CreateMaxLength ft) as [gmax|];
    destruct (FieldTypeText.CreatePattern ft) as [gp|]; cbn;
    repeat match goal with
    | |- context [?a <? ?b] => destruct (Z.ltb_spec a b)
    | |- context [?a >? ?b] => rewrite (Z.gtb_ltb a b); destruct (Z.ltb_spec b a)
    end;
    try destruct (snd (M (gp tt) s)) as [e|] eqn:Ep;
    (split;
     [ intros Hacc;
       first [ discriminate Hacc
             | split;
               [ apply within_bounds_intro; cbn; (lia || exact I)
               | intros g Hg; first [discriminate Hg | injection Hg as <-; exact Ep] ] ]
     | intros [Hin Hp]; try reflexivity; exfalso;
       first [ eapply within_bounds_min; [|exact Hin]; cbn; lia
             | eapply within_bounds_max; [|exact Hin]; cbn; lia
             | specialize (Hp gp eq_refl); congruence ] ]).
Qed.

Lemma Contains_In (l : list string) (v : string) : Contains l v = true <-> In v l.
Proof.
  induction l as [|x l IH]; cbn; [split; [discriminate | tauto]|].
  destruct (String.eqb_spec x v) as [->|Hne]; [tauto|].
  rewrite IH. split; [auto | intros [H|H]; [contradiction | assumption]].
Qed.

(** X9: FieldTypeEnum accepts a present string, and returns it, exactly when
    the string is one of EnumValues and the default provider, if there is
    one, yields one of EnumValues too. *)
Theorem FieldTypeEnum_accepts_iff (ft : FieldTypeEnum.t) (s : string) :
  FieldTypeEnum.ValidateValue ft (string_any s) = (string_any s, None) <->
  In s (FieldTypeEnum.EnumValues ft) /\ enum_default_valid ft.
Proof.
  rewrite <- Contains_In. unfold enum_default_valid.
  unfold FieldTypeEnum.ValidateValue, FieldTypeEnum.validate_input.
  destruct (FieldTypeEnum.CreateDefaultValue ft) as [g|]; cbn.
  - destruct (Contains (FieldTypeEnum.EnumValues ft) (g tt)); cbn.
    + destruct (Contains (FieldTypeEnum.EnumValues ft) s); cbn;
        (split; [intros H; try discriminate H; auto | intros [H _]; try discriminate H; auto]).
    + split; [discriminate | intros [_ H]; discriminate H].
  - destruct (Contains (FieldTypeEnum.EnumValues ft) s); cbn;
      (split; [intros H; try discriminate H; auto | intros [H _]; try discriminate H; auto]).
Qed.

(** X10: an Enum whose default provider yields a string outside EnumValues
    fails every validation with a configuration error, whether the input is
    absent, a member, or anything else. *)
Theorem FieldTypeEnum_bad_default_always_fails
    (ft : FieldTypeEnum.t) (g : unit -> string) (value : any) :
  FieldTypeEnum.CreateDefaultValue ft = Some g ->
  ~ In (g tt) (FieldTypeEnum.EnumValues ft) ->
  FieldTypeEnum.ValidateValue ft value
  = (nil_any, Some "configuration error, invalid default value").
Proof.
  intros Hg Hni. apply (FieldTypeEnum_bad_default ft g value Hg).
  destruct (Contains (FieldTypeEnum.EnumValues ft) (g tt)) eqn:E; [|reflexivity].
  apply Contains_In in E. contradiction.
Qed.

Lemma FieldTypeEnum_bad_default_always_fails_witness :
  FieldTypeEnum.CreateDefaultValue (enum_abc "z") = Some (fun _ => "z") /\
  ~ In "z" (FieldTypeEnum.EnumValues (enum_abc "z")) /\
  FieldTypeEnum.ValidateValue (enum_abc "z") (string_any "a")
  = (nil_any, Some "configuration error, invalid default value").
Proof.
  assert (Hni : ~ In "z" (FieldTypeEnum.EnumValues (enum_abc "z"))).
  { cbn. intros [H|[H|[H|[]]]]; discriminate H. }
  split; [reflexivity|]. split; [exact Hni|].
  apply (FieldTypeEnum_bad_default_always_fails (enum_abc "z") (fun _ => "z") (string_any "a"));
    [reflexivity | exact Hni].
Defined.

Lemma FieldTypeId_accepts (ft : FieldTypeId.t) (value : any) :
  FieldTypeId.ValidateValue ft value = (value, None) <->
  (value = nil_any /\ FieldTypeId.Nullable ft || FieldTypeId.PrimaryKey ft = true) \/
  (exists s, value = string_any s /\ String.length s = 31%nat /\ all_bytes is_hex s = true).
Proof.
  unfold FieldTypeId.ValidateValue.
  destruct value as [|s|i|f|b|t|p|tag]; cbn [validateNullable];
    try (cbn; split; [discriminate | intros [[H _]|(s' & H & _)]; discriminate H]).
  - destruct (FieldTypeId.Nullable ft || FieldTypeId.PrimaryKey ft); cbn.
    + split; [auto | reflexivity].
    + split; [discriminate | intros [[_ H]|(s' & H & _)]; discriminate H].
  - destruct (ValidateId (string_any s)) as [e|] eqn:E.
    + split; [discriminate|]. intros [[H _]|(s' & [= <-] & Hl & Hh)]; [discriminate H|].
      assert (ValidateId (string_any s) = None) by (apply ValidateId_accepts; auto).
      congruence.
    + apply ValidateId_accepts in E. split; [|reflexivity]. intros _. right. eauto.
Qed.

(** X11: FieldTypeId returns its input as accepted in two cases only: an
    absent input to a nullable or primary-key Id, and a string of 31
    hexadecimal digits. *)
Theorem FieldTypeId_accepts_iff (ft : FieldTypeId.t) (value : any) :
  FieldTypeId.ValidateValue ft value = (value, None) <->
  (value = nil_any /\ FieldTypeId.Nullable ft || FieldTypeId.PrimaryKey ft = true) \/
  (exists s, value = string_any s /\ String.length s = 31%nat /\ all_bytes is_hex s = true).
Proof. exact (FieldTypeId_accepts ft value). Qed.

(** X12: FieldTypeSingleRelation validates through the Id rule: it returns
    its input as accepted for an absent input when nullable, and for a string
    of 31 hexadecimal digits, and in no other case. *)
Theorem FieldTypeSingleRelation_accepts_iff (ft : FieldTypeSingleRelation.t) (value : any) :
  FieldTypeSingleRelation.ValidateValue ft value = (value, None) <->
  (value = nil_any /\ FieldTypeSingleRelation.Nullable ft = true) \/
  (exists s, value = string_any s /\ String.length s = 31%nat /\ all_bytes is_hex s = true).
Proof.
  unfold FieldTypeSingleRelation.ValidateValue.
  rewrite FieldTypeId_accepts. cbn. rewrite orb_false_r. reflexivity.
Qed.

(** X13: a validation never returns a value together with an error: when
    the error is non-nil, the value is nil, for every variant and input. *)
Theorem validation_error_has_no_value
    (lib : GoLib) (ft : FieldType) (value v : any) (e : string) :
  FieldType_ValidateValue lib ft value = (v, Some e) -> v = nil_any.
Proof.
  intros H.
  destruct ft as [ft|ft|ft|ft|ft|ft|ft|ft]; cbn [FieldType_ValidateValue] in H;
    unfold FieldTypeId.ValidateValue, FieldTypeText.ValidateValue,
      FieldTypeText.check_min, FieldTypeText.check_max, FieldTypeText.check_pattern,
      FieldTypeInt.ValidateValue, FieldTypeInt.check_max,
      FieldTypeFloat.ValidateValue, FieldTypeFloat.check_max,
      FieldTypeBool.ValidateValue,
      FieldTypeDateTime.ValidateValue, FieldTypeDateTime.check_min,
      FieldTypeDateTime.check_max,
      FieldTypeEnum.ValidateValue, FieldTypeEnum.validate_input,
      FieldTypeSingleRelation.ValidateValue, FieldTypeId.ValidateValue in H;
    split_matches H; congruence.
Qed.

Lemma validation_error_has_no_value_witness :
  FieldType_ValidateValue plain_lib text_plain (int64_any 7)
  = (nil_any, Some "invalid value, expected string") /\
  nil_any = nil_any.
Proof.
  split; [reflexivity|].
  apply (validation_error_has_no_value plain_lib text_plain (int64_any 7) nil_any
           "invalid value, expected string").
  reflexivity.
Defined.

(** X14: an accepted present input is returned as it came: apart from
    DateTime, which turns an RFC-3339 string into a time, no variant
    rewrites the value it accepts. *)
Theorem validation_returns_input
    (lib : GoLib) (ft : FieldType) (value v : any) :
  (forall d, ft <> DateTime d) ->
  value <> nil_any ->
  FieldType_ValidateValue lib ft value = (v, None) -> v = value.
Proof.
  intros Hd Hv H.
  destruct ft as [ft|ft|ft|ft|ft|ft|ft|ft]; cbn [FieldType_ValidateValue] in H;
    try (exfalso; exact (Hd ft eq_refl));
    unfold FieldTypeId.ValidateValue, FieldTypeText.ValidateValue,
      FieldTypeText.check_min, FieldTypeText.check_max, FieldTypeText.check_pattern,
      FieldTypeInt.ValidateValue, FieldTypeInt.check_max,
      FieldTypeFloat.ValidateValue, FieldTypeFloat.check_max,
      FieldTypeBool.ValidateValue,
      FieldTypeEnum.ValidateValue, FieldTypeEnum.validate_input,
      FieldTypeSingleRelation.ValidateValue, FieldTypeId.ValidateValue in H;
    split_matches H; congruence.
Qed.

Lemma validation_returns_input_witness :
  (forall d, Int (int_between 1 10) <> DateTime d) /\
  int64_any 10 <> nil_any /\
  FieldType_ValidateValue plain_lib (Int (int_between 1 10)) (int64_any 10)
  = (int64_any 10, None) /\
  int64_any 10 = int64_any 10.
Proof.
  split; [intros d H; discriminate H|]. split; [discriminate|]. split; [reflexivity|].
  apply (validation_returns_input plain_lib (Int (int_between 1 10)) (int64_any 10)
           (int64_any 10));
    [intros d H; discriminate H | discriminate | reflexivity].
Defined.

(** X15: FieldTypeDateTime accepts a present time, and returns it, exactly
    when it is neither before the configured minimum nor after the
    configured maximum. *)
Theorem FieldTypeDateTime_accepts_iff
    (P : string -> option Time) (F : Time -> string)
    (ft : FieldTypeDateTime.t) (d : Time) :
  FieldTypeDateTime.ValidateValue P F ft (Time_any d) = (Time_any d, None) <->
  within_bounds (FieldTypeDateTime.CreateMinValue ft) (FieldTypeDateTime.CreateMaxValue ft) d.
Proof.
  unfold FieldTypeDateTime.ValidateValue, FieldTypeDateTime.check_min,
    FieldTypeDateTime.check_max, Time_Before, Time_After. cbn.
  destruct (FieldTypeDateTime.CreateMinValue ft) as [gmin|];
    destruct (FieldTypeDateTime.CreateMaxValue ft) as [gmax|]; cbn;
    repeat match goal with
    | |- context [?a <? ?b] => destruct (Z.ltb_spec a b)
    | |- context [?a >? ?b] => rewrite (Z.gtb_ltb a b); destruct (Z.ltb_spec b a)
    end;
    (split;
     [ intros Hacc; try discriminate Hacc; apply within_bounds_intro; cbn; (lia || exact I)
     | intros Hin; try reflexivity; exfalso;
       first [ eapply within_bounds_min; [|exact Hin]; cbn; lia
             | eapply within_bounds_max; [|exact Hin]; cbn; lia ] ]).
Qed.

(** X16: Text, Int, Float and Bool check the dynamic type of a present
    input before anything else: a value of another type is refused with the
    variant's "expected ..." message, whatever bounds are configured. *)
Theorem present_value_type_checked
    (lib : GoLib) (ft : FieldType) (value : any) (msg : string) :
  type_mismatch_message ft = Some msg ->
  value <> nil_any ->
  has_native_type ft value = false ->
  FieldType_ValidateValue lib ft value = (nil_any, Some msg).
Proof.
  intros Hm Hv Ht.
  destruct ft as [ft|ft|ft|ft|ft|ft|ft|ft]; try discriminate Hm;
    injection Hm as <-;
    destruct value; try discriminate Ht; try (exfalso; exact (Hv eq_refl));
    reflexivity.
Qed.

Lemma present_value_type_checked_witness :
  type_mismatch_message (Int (int_between 1 10)) = Some "invalid value, expected integer" /\
  string_any "5" <> nil_any /\
  has_native_type (Int (int_between 1 10)) (string_any "5") = false /\
  FieldType_ValidateValue plain_lib (Int (int_between 1 10)) (string_any "5")
  = (nil_any, Some "invalid value, expected integer").
Proof.
  split; [reflexivity|]. split; [discriminate|]. split; [reflexivity|].
  apply (present_value_type_checked plain_lib (Int (int_between 1 10)) (string_any "5"));
    [reflexivity | discriminate | reflexivity].
Defined.

(** ** The earlier TextFieldType *)

(** X17: a TextFieldType with MinLength set and MaxLength nil panics on
    every present string, whatever its length. *)
Theorem TextFieldType_min_without_max_panics
    (M : string -> string -> bool * error) (ft : TextFieldType.t) (m : Z) (s : string) :
  TextFieldType.MinLength ft = Some m ->
  TextFieldType.MaxLength ft = None ->
  TextFieldType.ValidateValue M ft (string_any s) = Panic.
Proof.
  intros Hmin Hmax. unfold TextFieldType.ValidateValue, TextFieldType.check_min. cbn.
  rewrite Hmax, Hmin. reflexivity.
Qed.

Lemma TextFieldType_min_without_max_panics_witness :
  TextFieldType.MinLength (TextFieldType.mk true None None (Some 0) None) = Some 0 /\
  TextFieldType.MaxLength (TextFieldType.mk true None None (Some 0) None) = None /\
  TextFieldType.ValidateValue literal_MatchString
    (TextFieldType.mk true None None (Some 0) None) (string_any "") = Panic.
Proof.
  split; [reflexivity|]. split; [reflexivity|].
  apply (TextFieldType_min_without_max_panics literal_MatchString
           (TextFieldType.mk true None None (Some 0) None) 0 ""); reflexivity.
Defined.

(** X18: a TextFieldType with both bounds set accepts a present string
    exactly when its length equals MaxLength (and the pattern, if any,
    compiles): MinLength plays no part in the decision. *)
Theorem TextFieldType_both_bounds_iff
    (M : string -> string -> bool * error) (ft : TextFieldType.t) (m n : Z) (s : string) :
  TextFieldType.MinLength ft = Some m ->
  TextFieldType.MaxLength ft = Some n ->
  TextFieldType.ValidateValue M ft (string_any s) = Done (pstring_any (Some s), None) <->
  Z.of_nat (String.length s) = n /\
  (forall p, TextFieldType.Pattern ft = Some p -> snd (M p s) = None).
Proof.
  intros Hmin Hmax.
  unfold TextFieldType.ValidateValue, TextFieldType.check_min, TextFieldType.check_pattern.
  cbn. rewrite Hmax, Hmin.
  rewrite (Z.gtb_ltb (Z.of_nat (String.length s)) n).
  destruct (Z.ltb_spec n (Z.of_nat (String.length s)));
    [split; [discriminate | intros [Hl _]; lia]|].
  destruct (Z.ltb_spec (Z.of_nat (String.length s)) n);
    [split; [discriminate | intros [Hl _]; lia]|].
  destruct (TextFieldType.Pattern ft) as [p|].
  - destruct (snd (M p s)) as [e|] eqn:Ep.
    + split; [discriminate|]. intros [_ Hp]. specialize (Hp p eq_refl). congruence.
    + split; [|reflexivity]. intros _. split; [lia|]. intros p' [= <-]. exact Ep.
  - split; [|reflexivity]. intros _. split; [lia|]. intros p' Hp. discriminate Hp.
Qed.

Lemma TextFieldType_both_bounds_iff_witness :
  TextFieldType.MinLength (TextFieldType.mk false None (Some 3) (Some 1) None) = Some 1 /\
  TextFieldType.MaxLength (TextFieldType.mk false None (Some 3) (Some 1) None) = Some 3 /\
  (TextFieldType.ValidateValue literal_MatchString
     (TextFieldType.mk false None (Some 3) (Some 1) None) (string_any "ab")
   = Done (pstring_any (Some "ab"), None) <->
   Z.of_nat (String.length "ab") = 3 /\
   (forall p, TextFieldType.Pattern (TextFieldType.mk false None (Some 3) (Some 1) None)
              = Some p -> snd (literal_MatchString p "ab") = None)).
Proof.
  split; [reflexivity|]. split; [reflexivity|].
  apply (TextFieldType_both_bounds_iff literal_MatchString
           (TextFieldType.mk false None (Some 3) (Some 1) None) 1 3 "ab"); reflexivity.
Defined.

(** ** Reconciliation against a baseline *)

Section AgainstBaseline.
Variable Exec : list string -> string -> error.
Variable h : Heap.

Lemma run_batch_app (log : list string) (a b : list string) :
  run_batch Exec log (a ++ b) =
  match run_batch Exec log a with
  | (log', Some e) => (log', Some e)
  | (log', None) => run_batch Exec log' b
  end.
Proof.
  revert log. induction a as [|sql a IH]; intros log; [reflexivity|].
  cbn [app run_batch]. destruct (Exec log sql); [reflexivity | apply IH].
Qed.

(** The table rename is the batch of at most one statement. *)
Lemma rename_table_batch (collection o : Collection) :
  rename_table Exec collection o [] =
  match run_batch Exec [] (rename_table_stmts o collection) with
  | (log, Some e) => (log, Returned (Some e))
  | (log, None) => (log, Continue tt)
  end.
Proof.
  unfold rename_table, rename_table_stmts, rename_table_stmt.
  destruct (String.eqb (Collection_Name o) (Collection_Name collection)); cbn;
    [reflexivity|].
  unfold tx_bind, tx_exec. cbn.
  destruct (Exec [] _); reflexivity.
Qed.

Lemma tx_filter_quiet {A} (p : A -> Tx bool) (l : list A) (log : list string) :
  (forall a log, (exists b, p a log = (log, Continue b)) \/ p a log = (log, Panicked)) ->
  (exists keep, tx_filter p l log = (log, Continue keep)) \/
  tx_filter p l log = (log, Panicked).
Proof.
  intros Hq. induction l as [|a l IH]; [left; exists []; reflexivity|].
  cbn [tx_filter]. unfold tx_bind.
  destruct (Hq a log) as [(b & ->)| ->]; [|right; reflexivity].
  destruct IH as [(keep & ->)| ->]; [left; eexists|right]; reflexivity.
Qed.

Lemma tx_filter_panics {A} (p : A -> Tx bool) (l : list A) (a : A) (log : list string) :
  (forall a log, (exists b, p a log = (log, Continue b)) \/ p a log = (log, Panicked)) ->
  In a l -> p a log = (log, Panicked) ->
  tx_filter p l log = (log, Panicked).
Proof.
  intros Hq Hin Hp. induction l as [|x l IH]; [destruct Hin|].
  cbn [tx_filter]. unfold tx_bind.
  destruct Hin as [->|Hin].
  - rewrite Hp. reflexivity.
  - destruct (Hq x log) as [(b & ->)| ->]; [|reflexivity].
    rewrite (IH Hin). reflexivity.
Qed.

Lemma is_rename_field_quiet (fp : ptr) (log : list string) :
  (exists b, is_rename_field h fp log = (log, Continue b)) \/
  is_rename_field h fp log = (log, Panicked).
Proof.
  unfold is_rename_field, tx_bind, tx_lift.
  destruct (deref (fields h) fp) as [f|]; [|right; reflexivity].
  destruct (deref (fields h) (Field_original f)) as [o|]; [|right; reflexivity].
  destruct (deref (fields h) (Field_original o)) as [oo|]; [left; eexists|right];
    reflexivity.
Qed.

(** X19: a collection that has a baseline and holds a newly declared field
    (one whose original is nil) cannot be reconciled: after the table rename,
    if any, SaveCollection panics in the rename filter, so that no ADD COLUMN
    and no other column statement is ever executed. *)
Theorem SaveCollection_new_field_panics
    (collection : Collection) (ol : nat) (o : Collection) (s : CollectionSchema)
    (fp : ptr) (f : Field) :
  Collection_original collection = Some ol ->
  collections h !! ol = Some o ->
  deref (cschemas h) (Collection_Schema collection) = Done s ->
  In fp (Fields s) ->
  deref (fields h) fp = Done f ->
  Field_original f = None ->
  SaveCollection Exec h collection =
  match run_batch Exec [] (rename_table_stmts o collection) with
  | (log, Some e) => (log, Done (Some e))
  | (log, None) => (log, Panic)
  end.
Proof.
  intros Hol Ho Hs Hin Hf Hnew.
  unfold SaveCollection. rewrite Hol.
  unfold alter_table. unfold tx_bind at 1. unfold tx_lift at 1. rewrite Hol. cbn.
  rewrite Ho. unfold tx_bind at 1. rewrite rename_table_batch.
  destruct (run_batch Exec [] (rename_table_stmts o collection)) as [log [e|]];
    [reflexivity|].
  unfold tx_bind at 1. unfold tx_lift at 1. rewrite Hs.
  unfold tx_bind at 1.
  destruct (create_filter_quiet h (Fields s) log) as [(keep & ->)| ->]; [|reflexivity].
  unfold tx_bind at 1.
  rewrite (tx_filter_panics (is_rename_field h) (Fields s) fp log);
    [reflexivity | exact is_rename_field_quiet | exact Hin |].
  unfold is_rename_field, tx_bind, tx_lift. rewrite Hf, Hnew. reflexivity.
Qed.

(** With no current field, every baseline field counts as removed. *)
Lemma remove_filter_no_fields (l : list ptr) (log : list string) :
  tx_filter (is_remove_field h []) l log = (log, Continue l).
Proof.
  induction l as [|fp l IH]; [reflexivity|].
  cbn [tx_filter]. unfold tx_bind. cbn. rewrite IH. reflexivity.
Qed.

(** The DROP COLUMN loop is the batch of its statements. *)
Lemma drop_loop_batch (collection : Collection) (l : list ptr) (names : list string) :
  Forall2 (field_named h) l names ->
  forall log,
    exec_each Exec (drop_column h collection) l log =
    match run_batch Exec log (map (drop_column_stmt collection) names) with
    | (log', Some e) => (log', Returned (Some e))
    | (log', None) => (log', Continue tt)
    end.
Proof.
  induction 1 as [|fp name l names (f & Hf & Hn) _ IH]; intros log; [reflexivity|].
  cbn [exec_each map run_batch]. unfold tx_bind at 1.
  unfold drop_column at 1. unfold tx_bind at 1, tx_lift at 1. rewrite Hf. cbn.
  unfold drop_column_stmt at 1 2 3. rewrite Hn.
  destruct (Exec log _); [reflexivity | apply IH].
Qed.

(** X20: when the current schema holds no field, a collection with a
    baseline is reconciled by the table rename (if the name changed) followed
    by one DROP COLUMN per baseline field, in baseline order, stopping at the
    first statement the database refuses and returning its error. *)
Theorem SaveCollection_all_fields_removed
    (collection : Collection) (ol : nat) (o : Collection)
    (s os : CollectionSchema) (names : list string) :
  Collection_original collection = Some ol ->
  collections h !! ol = Some o ->
  deref (cschemas h) (Collection_Schema collection) = Done s ->
  Fields s = [] ->
  deref (cschemas h) (Collection_Schema o) = Done os ->
  Forall2 (field_named h) (Fields os) names ->
  SaveCollection Exec h collection =
  (fst (run_batch Exec [] (rename_table_stmts o collection
                           ++ map (drop_column_stmt collection) names)),
   Done (snd (run_batch Exec [] (rename_table_stmts o collection
                                 ++ map (drop_column_stmt collection) names)))).
Proof.
  intros Hol Ho Hs Hempty Hos Hnames.
  rewrite run_batch_app.
  unfold SaveCollection. rewrite Hol.
  unfold alter_table. unfold tx_bind at 1. unfold tx_lift at 1. rewrite Hol. cbn.
  rewrite Ho. unfold tx_bind at 1. rewrite rename_table_batch.
  destruct (run_batch Exec [] (rename_table_stmts o collection)) as [log [e|]];
    [reflexivity|].
  unfold tx_bind at 1. unfold tx_lift at 1. rewrite Hs, Hempty.
  unfold tx_bind at 1. cbn [tx_filter]. unfold tx_ret at 1.
  unfold tx_bind at 1. unfold tx_ret at 1.
  unfold tx_bind at 1. unfold tx_lift at 1. rewrite Hos.
  unfold tx_bind at 1. rewrite remove_filter_no_fields.
  unfold tx_bind at 1. rewrite (drop_loop_batch collection _ _ Hnames).
  destruct (run_batch Exec log (map (drop_column_stmt collection) names)) as [log' [e|]];
    reflexivity.
Qed.

(** X21: the table rename comes before everything else: when the database
    refuses it, SaveCollection has executed that statement only and returns
    the database's error, whatever the fields are. *)
Theorem SaveCollection_rename_table_refused
    (collection : Collection) (ol : nat) (o : Collection) (e : string) :
  Collection_original collection = Some ol ->
  collections h !! ol = Some o ->
  Collection_Name o <> Collection_Name collection ->
  Exec [] (rename_table_stmt o collection) = Some e ->
  SaveCollection Exec h collection = ([rename_table_stmt o collection], Done (Some e)).
Proof.
  intros Hol Ho Hne He.
  unfold SaveCollection. rewrite Hol.
  unfold alter_table. unfold tx_bind at 1. unfold tx_lift at 1. rewrite Hol. cbn.
  rewrite Ho. unfold tx_bind at 1. rewrite rename_table_batch.
  unfold rename_table_stmts.
  destruct (String.eqb_spec (Collection_Name o) (Collection_Name collection));
    [contradiction|].
  cbn. rewrite He. reflexivity.
Qed.

End AgainstBaseline.

Lemma SaveCollection_new_field_panics_witness :
  let h := heap_after users_extended empty_heap in
  let users := collection_at h (Some 0%nat) in
  Collection_original users = Some 1%nat /\
  In (Some 6%nat) [Some 0%nat; Some 1%nat; Some 6%nat] /\
  deref (fields h) (Some 6%nat)
  = Done {| Field_original := None; Field_Name := "active"; Field_Schema := Some 6%nat |} /\
  SaveCollection Exec_ok h users = ([], Panic).
Proof.
  intros h users. split; [reflexivity|]. split; [cbn; auto|]. split; [reflexivity|].
  apply (SaveCollection_new_field_panics Exec_ok h users 1
           {| Collection_original := None; Collection_Name := "users";
              Collection_Schema := Some 1%nat |}
           {| Fields := [Some 0%nat; Some 1%nat; Some 6%nat]; ViewFilter := None;
              AllowCreate := None; AllowUpdate := None; AllowDelete := None |}
           (Some 6%nat)
           {| Field_original := None; Field_Name := "active"; Field_Schema := Some 6%nat |});
    try reflexivity.
  cbn. auto.
Defined.

Lemma SaveCollection_all_fields_removed_witness :
  let h := heap_after notes_emptied empty_heap in
  let notes := collection_at h (Some 0%nat) in
  Collection_original notes = Some 1%nat /\
  Forall2 (field_named h) [Some 0%nat] ["a"] /\
  SaveCollection Exec_ok h notes
  = (["ALTER TABLE notes RENAME TO memos"; "ALTER TABLE memos DROP COLUMN a"], Done None).
Proof.
  intros h notes.
  assert (Hnames : Forall2 (field_named h) [Some 0%nat] ["a"]).
  { repeat constructor.
    exists {| Field_original := Some 2%nat; Field_Name := "a"; Field_Schema := Some 0%nat |}.
    split; reflexivity. }
  split; [reflexivity|]. split; [exact Hnames|].
  apply (SaveCollection_all_fields_removed Exec_ok h notes 1
           {| Collection_original := None; Collection_Name := "notes";
              Collection_Schema := Some 1%nat |}
           {| Fields := []; ViewFilter := None; AllowCreate := None;
              AllowUpdate := None; AllowDelete := None |}
           {| Fields := [Some 0%nat]; ViewFilter := None; AllowCreate := None;
              AllowUpdate := None; AllowDelete := None |}
           ["a"]); try reflexivity.
  exact Hnames.
Defined.

Lemma SaveCollection_rename_table_refused_witness :
  let h := heap_after notes_emptied empty_heap in
  let notes := collection_at h (Some 0%nat) in
  Collection_original notes = Some 1%nat /\
  Exec_refuse [] "ALTER TABLE notes RENAME TO memos" = Some "refused" /\
  SaveCollection Exec_refuse h notes
  = (["ALTER TABLE notes RENAME TO memos"], Done (Some "refused")).
Proof.
  intros h notes. split; [reflexivity|]. split; [reflexivity|].
  apply (SaveCollection_rename_table_refused Exec_refuse h notes 1
           {| Collection_original := None; Collection_Name := "notes";
              Collection_Schema := Some 1%nat |} "refused");
    try reflexivity.
  discriminate.
Defined.

(** ** Forward, continued *)

Section ForwardKeeps.
Local Open Scope nat_scope.

(** X22: the baseline Forward stores has no baseline of its own: after
    Forward the collection's original is a Collection of the same name whose
    original is nil, so that only the last reconciled state is kept, however
    often Forward has run. *)
Theorem Collection_Forward_history_depth_one (l : nat) (h : Heap) (u : unit) (h' : Heap) :
  Collection_Forward (Some l) h = Done (u, h') ->
  exists c ol o,
    collections h' !! l = Some c /\
    Collection_original c = Some ol /\
    collections h' !! ol = Some o /\
    Collection_original o = None /\
    Collection_Name o = Collection_Name c.
Proof.
  intros H. apply Collection_Forward_Done in H
    as (c & s & h1 & Hc & _ & _ & _ & Hcs & _).
  pose proof (lookup_lt_Some _ _ _ Hc) as Hl.
  eexists _, (length (collections h)), _. rewrite Hcs.
  split; [|split; [|split; [|split]]].
  - apply list_lookup_insert_eq. rewrite length_app. lia.
  - reflexivity.
  - rewrite list_lookup_insert_ne by lia. apply list_lookup_middle. reflexivity.
  - reflexivity.
  - reflexivity.
Qed.

Lemma same_live_refl (h : Heap) : same_live h h.
Proof. unfold same_live. repeat split; eauto. Qed.

Lemma same_live_trans (h1 h2 h3 : Heap) :
  same_live h1 h2 -> same_live h2 h3 -> same_live h1 h3.
Proof.
  intros (Hc & Hs & Hf & Hfs) (Hc' & Hs' & Hf' & Hfs').
  split; [|split; [|split]].
  - intros i c Hi. destruct (Hc i c Hi) as (c1 & Hi1 & Hn1 & Hp1).
    destruct (Hc' i c1 Hi1) as (c2 & Hi2 & Hn2 & Hp2).
    exists c2. split; [assumption|]. split; congruence.
  - eauto.
  - intros i f Hi. destruct (Hf i f Hi) as (f1 & Hi1 & Hn1 & Hp1).
    destruct (Hf' i f1 Hi1) as (f2 & Hi2 & Hn2 & Hp2).
    exists f2. split; [assumption|]. split; congruence.
  - eauto.
Qed.

Lemma with_clone_live (h : Heap) (f : Field) (ty : FieldType) :
  same_live h (with_clone h f ty).
Proof.
  unfold same_live, with_clone. cbn. split; [|split; [|split]].
  - eauto.
  - eauto.
  - intros i g Hi. exists g. split; [apply lookup_app_l_Some, Hi | auto].
  - intros i fs Hi. apply lookup_app_l_Some, Hi.
Qed.

Lemma set_Field_live (h : Heap) (l : nat) (f f' : Field) :
  fields h !! l = Some f ->
  Field_Name f' = Field_Name f -> Field_Schema f' = Field_Schema f ->
  same_live h (set_Field l f' h).
Proof.
  intros Hl Hn Hp. unfold same_live, set_Field. cbn. split; [|split; [|split]].
  - eauto.
  - eauto.
  - intros i g Hi. destruct (decide (l = i)) as [->|Hne].
    + exists f'. rewrite list_lookup_insert_eq by (eapply lookup_lt_Some, Hi).
      split; [reflexivity | split; congruence].
    + exists g. rewrite list_lookup_insert_ne by assumption. auto.
  - eauto.
Qed.

Lemma set_Collection_live (h : Heap) (l : nat) (c c' : Collection) :
  collections h !! l = Some c ->
  Collection_Name c' = Collection_Name c -> Collection_Schema c' = Collection_Schema c ->
  same_live h (set_Collection l c' h).
Proof.
  intros Hl Hn Hp. unfold same_live, set_Collection. cbn. split; [|split; [|split]].
  - intros i g Hi. destruct (decide (l = i)) as [->|Hne].
    + exists c'. rewrite list_lookup_insert_eq by (eapply lookup_lt_Some, Hi).
      split; [reflexivity | split; congruence].
    + exists g. rewrite list_lookup_insert_ne by assumption. auto.
  - eauto.
  - eauto.
  - eauto.
Qed.

(** Field.Forward, with the type it clones. *)
Lemma Field_Forward_typed (fp : ptr) (h : Heap) (u : unit) (h' : Heap) :
  Field_Forward fp h = Done (u, h') ->
  exists l f sl ty,
    fp = Some l /\ fields h !! l = Some f /\
    Field_Schema f = Some sl /\
    fschemas h !! sl = Some {| FieldSchema_Type := Some ty |} /\
    h' = set_Field l {| Field_original := Some (length (fields h));
                        Field_Name := Field_Name f;
                        Field_Schema := Field_Schema f |} (with_clone h f ty).
Proof.
  unfold Field_Forward. intros H.
  apply mem_bind_Done in H as (f & h1 & Hr & H).
  apply mem_read_Done in Hr as [Hf ->].
  apply deref_Done in Hf as (l & -> & Hf).
  apply mem_bind_Done in H as (cp & h2 & Hc & H).
  unfold Field_Clone in Hc.
  apply mem_bind_Done in Hc as (fs & h1 & Hr & Hc).
  apply mem_read_Done in Hr as [Hfs ->].
  apply deref_Done in Hfs as (sl & Hsl & Hfs).
  apply mem_bind_Done in Hc as (sp & h3 & Hs & Hc).
  unfold FieldSchema_Clone in Hs. destruct fs as [[ty|]]; [|discriminate]. cbn in Hs.
  unfold new_FieldSchema in Hs. injection Hs as <- <-.
  unfold new_Field in Hc. cbn in Hc. injection Hc as <- <-.
  injection H as _ <-. exists l, f, sl, ty. auto.
Qed.

Lemma Field_Forward_live (fp : ptr) (h : Heap) (u : unit) (h' : Heap) :
  Field_Forward fp h = Done (u, h') -> same_live h h'.
Proof.
  intros H. apply Field_Forward_typed in H as (l & f & sl & ty & _ & Hf & _ & _ & ->).
  eapply same_live_trans; [apply (with_clone_live h f ty)|].
  eapply (set_Field_live _ l f); [|reflexivity|reflexivity].
  cbn. apply lookup_app_l_Some, Hf.
Qed.

Lemma clone_step_live (fp : ptr) (h : Heap) (p : ptr) (h' : Heap) :
  mem_bind (mem_read fields fp) (fun f => Field_Clone f) h = Done (p, h') ->
  same_live h h'.
Proof.
  intros H. apply mem_bind_Done in H as (f & h1 & Hr & H).
  apply mem_read_Done in Hr as [_ ->].
  apply Field_Clone_Done in H as (ty & _ & ->). apply with_clone_live.
Qed.

Lemma mem_map_live {A B} (step : A -> Mem B) (l : list A) :
  (forall a h b h', step a h = Done (b, h') -> same_live h h') ->
  forall h bs h', mem_map step l h = Done (bs, h') -> same_live h h'.
Proof.
  intros Hstep. induction l as [|a l IH]; intros h bs h' H.
  - injection H as _ <-. apply same_live_refl.
  - cbn [mem_map] in H.
    apply mem_bind_Done in H as (b & h1 & Ha & H).
    apply mem_bind_Done in H as (bs' & h2 & Hl & H).
    injection H as _ <-.
    eapply same_live_trans; [eapply Hstep | eapply IH]; eassumption.
Qed.

Lemma Collection_Forward_live (l : nat) (h : Heap) (u : unit) (h' : Heap) :
  Collection_Forward (Some l) h = Done (u, h') -> same_live h h'.
Proof.
  unfold Collection_Forward. intros H.
  apply mem_bind_Done in H as (c & h0 & Hr & H).
  apply mem_read_Done in Hr as [Hc ->].
  apply deref_Done in Hc as (l' & [= <-] & Hc).
  apply mem_bind_Done in H as (cl & h3 & Hcl & H).
  unfold Collection_Clone in Hcl.
  apply mem_bind_Done in Hcl as (s & h0 & Hr & Hcl).
  apply mem_read_Done in Hr as [Hs ->].
  apply mem_bind_Done in Hcl as (sp & h2 & Hsc & Hcl).
  unfold CollectionSchema_Clone in Hsc.
  apply mem_bind_Done in Hsc as (ps & h1 & Hloop & Hsc).
  apply (mem_map_live _ _ clone_step_live) in Hloop.
  unfold new_CollectionSchema in Hsc. injection Hsc as <- <-.
  unfold new_Collection in Hcl. cbn in Hcl. injection Hcl as <- <-.
  apply mem_bind_Done in H as ([] & h4 & Hset & H).
  injection Hset as <-.
  apply mem_bind_Done in H as (s' & h5 & Hr & H).
  apply mem_read_Done in Hr as [_ ->].
  apply mem_bind_Done in H as (us & h6 & Hfw & H).
  injection H as _ <-.
  apply (mem_map_live _ _ Field_Forward_live) in Hfw.
  eapply same_live_trans; [exact Hloop|].
  eapply same_live_trans; [|exact Hfw].
  destruct Hloop as (Hc1 & _).
  destruct (Hc1 l c Hc) as (c1 & Hc1l & Hn1 & Hp1).
  set (h2 := Build_Heap
               (collections h1 ++
                  [{| Collection_original := None; Collection_Name := Collection_Name c;
                      Collection_Schema := Some (length (cschemas h1)) |}])
               (cschemas h1 ++ [s]) (fields h1) (fschemas h1)).
  assert (H12 : same_live h1 h2).
  { unfold same_live, h2. cbn. split; [|split; [|split]]; eauto.
    - intros i g Hi. exists g. split; [apply lookup_app_l_Some, Hi | auto].
    - intros i g Hi. apply lookup_app_l_Some, Hi. }
  eapply same_live_trans; [exact H12|].
  eapply (set_Collection_live h2 l c1); [| cbn; congruence | cbn; congruence].
  unfold h2. cbn. apply lookup_app_l_Some, Hc1l.
Qed.

(** X23: Forward changes nothing but original pointers: every collection,
    collection schema, field and field schema the store held is still there
    afterwards, with the same name, the same schema pointer, the same
    fields and the same type. *)
Theorem Collection_Forward_keeps_live_state (l : nat) (h : Heap) (u : unit) (h' : Heap) :
  Collection_Forward (Some l) h = Done (u, h') -> same_live h h'.
Proof. exact (Collection_Forward_live l h u h'). Qed.

End ForwardKeeps.

Lemma Collection_Forward_history_depth_one_witness :
  let h := heap_after users_fwd empty_heap in
  let h' := heap_after (Collection_Forward (Some 0%nat)) h in
  Collection_Forward (Some 0%nat) h = Done (tt, h') /\
  exists c ol o,
    collections h' !! 0%nat = Some c /\
    Collection_original c = Some ol /\
    collections h' !! ol = Some o /\
    Collection_original o = None /\
    Collection_Name o = Collection_Name c.
Proof.
  intros h h'. split; [vm_compute; reflexivity|].
  apply (Collection_Forward_history_depth_one 0 h tt h'). vm_compute. reflexivity.
Defined.

Lemma Collection_Forward_keeps_live_state_witness :
  let h := heap_after users_decl empty_heap in
  Collection_Forward (Some 0%nat) h = Done (tt, heap_after users_fwd empty_heap) /\
  same_live h (heap_after users_fwd empty_heap).
Proof.
  intros h. split; [vm_compute; reflexivity|].
  apply (Collection_Forward_keeps_live_state 0 h tt). vm_compute. reflexivity.
Defined.

(** ** What Forward records *)

Section ForwardRecords.
Local Open Scope nat_scope.

(** Cloning a field type yields an equal configuration; an Enum keeps its
    values, in order. *)
Lemma FieldType_Clone_eq (ty : FieldType) : FieldType_Clone ty = ty.
Proof.
  destruct ty as [ft|ft|ft|ft|ft|ft|ft|ft]; try reflexivity.
  destruct ft as [n vs g]. cbn. unfold FieldTypeEnum.Clone. cbn.
  rewrite firstn_all. reflexivity.
Qed.

Lemma Field_Forward_snapshots (N l0 : nat) (h : Heap) (u : unit) (h' : Heap) :
  l0 < N -> N <= length (fields h) ->
  Field_Forward (Some l0) h = Done (u, h') ->
  snapshotted N l0 h'.
Proof.
  intros Hl HN H.
  apply Field_Forward_typed in H as (l & f & sl & ty & [= <-] & Hf & Hsl & Hfs & ->).
  pose proof (lookup_lt_Some _ _ _ Hfs) as Hslt.
  eexists _, (length (fields h)), _, sl, (length (fschemas h)), ty. cbn.
  split; [apply list_lookup_insert_eq; rewrite length_app; lia|].
  split; [reflexivity|]. split; [lia|].
  split; [rewrite list_lookup_insert_ne by lia; apply list_lookup_middle; reflexivity|].
  split; [reflexivity|]. split; [reflexivity|]. split; [exact Hsl|].
  split; [reflexivity|]. split; [lia|].
  split; [apply lookup_app_l_Some, Hfs|].
  rewrite FieldType_Clone_eq. apply list_lookup_middle. reflexivity.
Qed.

Lemma Field_Forward_keeps_snapshot (N l0 l : nat) (h : Heap) (u : unit) (h' : Heap) :
  l < N -> N <= length (fields h) ->
  snapshotted N l0 h ->
  Field_Forward (Some l) h = Done (u, h') ->
  snapshotted N l0 h'.
Proof.
  intros Hl HN Hsn H.
  destruct (decide (l = l0)) as [->|Hne].
  - eapply Field_Forward_snapshots; eassumption.
  - destruct Hsn as (f & n & nf & sl & nsl & ty & Hf & Ho & Hn & Hnf & Hno & Hname
                     & Hsl & Hnsl & Hd & Hfs & Hnfs).
    apply Field_Forward_typed in H as (l' & g & gl & gty & [= <-] & Hg & _ & _ & ->).
    exists f, n, nf, sl, nsl, ty. cbn.
    split; [rewrite list_lookup_insert_ne by assumption; apply lookup_app_l_Some, Hf|].
    split; [assumption|]. split; [assumption|].
    split; [rewrite list_lookup_insert_ne by lia; apply lookup_app_l_Some, Hnf|].
    split; [assumption|]. split; [assumption|]. split; [assumption|].
    split; [assumption|]. split; [assumption|].
    split; apply lookup_app_l_Some; assumption.
Qed.

Lemma forward_loop_keeps_snapshot (N l0 : nat) (l : list ptr) :
  Forall (fun fp => exists i, fp = Some i /\ i < N) l ->
  forall h us h',
    N <= length (fields h) ->
    snapshotted N l0 h ->
    mem_map Field_Forward l h = Done (us, h') ->
    snapshotted N l0 h'.
Proof.
  induction 1 as [|fp l (i & -> & Hi) _ IH]; intros h us h' HN Hsn H.
  - injection H as _ <-. exact Hsn.
  - cbn [mem_map] in H.
    apply mem_bind_Done in H as (u & h1 & Hstep & H).
    apply mem_bind_Done in H as (us' & h2 & Hloop & H).
    replace h' with h2 by (unfold mem_ret in H; congruence).
    pose proof (Field_Forward_same _ _ _ _ Hstep) as (_ & _ & Hlen).
    eapply IH; [| |exact Hloop]; [lia|].
    eapply Field_Forward_keeps_snapshot; eassumption.
Qed.

Lemma forward_loop_snapshots (N : nat) (l : list ptr) :
  Forall (fun fp => exists i, fp = Some i /\ i < N) l ->
  forall h us h',
    N <= length (fields h) ->
    mem_map Field_Forward l h = Done (us, h') ->
    Forall (fun fp => exists l0, fp = Some l0 /\ snapshotted N l0 h') l.
Proof.
  induction 1 as [|fp l (i & -> & Hi) Hrest IH]; intros h us h' HN H; [constructor|].
  cbn [mem_map] in H.
  apply mem_bind_Done in H as (u & h1 & Hstep & H).
  apply mem_bind_Done in H as (us' & h2 & Hloop & H).
  replace h' with h2 by (unfold mem_ret in H; congruence).
  pose proof (Field_Forward_same _ _ _ _ Hstep) as (_ & _ & Hlen).
  constructor.
  - exists i. split; [reflexivity|].
    eapply forward_loop_keeps_snapshot; [exact Hrest| |
      eapply Field_Forward_snapshots; eassumption | exact Hloop]. lia.
  - eapply IH; [|exact Hloop]. lia.
Qed.

(** X24: after Forward, every field of the collection points, through its
    original, at a snapshot made by this Forward: a Field without original,
    carrying the field's current name and, in a FieldSchema of its own, the
    field's current type. *)
Theorem Collection_Forward_snapshots_fields
    (l : nat) (h : Heap) (c : Collection) (s : CollectionSchema) (u : unit) (h' : Heap) :
  collections h !! l = Some c ->
  deref (cschemas h) (Collection_Schema c) = Done s ->
  Forall (live_field h) (Fields s) ->
  Collection_Forward (Some l) h = Done (u, h') ->
  Forall (fun fp => exists l0, fp = Some l0 /\ snapshotted (length (fields h)) l0 h')
         (Fields s).
Proof.
  intros Hc Hs Hlive H.
  apply Collection_Forward_Done in H
    as (c' & s' & h1 & Hc' & Hs' & Hlen & Hloop & _ & _).
  assert (s' = s) as -> by congruence.
  eapply forward_loop_snapshots; [|exact Hlen|exact Hloop].
  eapply Forall_impl; [exact Hlive|]. intros fp (j & -> & Hj). eauto.
Qed.

(** *** Forward succeeds on a declared collection *)

Lemma mem_bind_eq {A B} (m : Mem A) (k : A -> Mem B) (h h1 : Heap) (a : A) :
  m h = Done (a, h1) -> mem_bind m k h = k a h1.
Proof. unfold mem_bind. intros ->. reflexivity. Qed.

Lemma mem_read_eq {A} (store : Heap -> list A) (p : ptr) (h : Heap) (a : A) :
  deref (store h) p = Done a -> mem_read store p h = Done (a, h).
Proof. unfold mem_read. intros ->. reflexivity. Qed.

Lemma declared_field_live (h h' : Heap) (fp : ptr) :
  same_live h h' -> declared_field h fp -> declared_field h' fp.
Proof.
  intros (_ & _ & Hf & Hfs) (f & fs & ty & Hd & Hds & Hty).
  apply deref_Done in Hd as (l & -> & Hl).
  apply deref_Done in Hds as (sl & Hsl & Hs).
  destruct (Hf l f Hl) as (f' & Hl' & _ & Hp').
  exists f', fs, ty. split; [|split; [|exact Hty]].
  - apply deref_Done. eauto.
  - apply deref_Done. exists sl. split; [congruence | apply Hfs, Hs].
Qed.

Lemma Field_Clone_runs (h : Heap) (f : Field) (fs : FieldSchema) (ty : FieldType) :
  deref (fschemas h) (Field_Schema f) = Done fs ->
  FieldSchema_Type fs = Some ty ->
  Field_Clone f h = Done (Some (length (fields h)), with_clone h f ty).
Proof.
  intros Hds Hty. unfold Field_Clone.
  rewrite (mem_bind_eq _ _ h h fs (mem_read_eq fschemas _ h fs Hds)).
  unfold FieldSchema_Clone. rewrite Hty. reflexivity.
Qed.

Lemma clone_step_runs (h : Heap) (fp : ptr) :
  declared_field h fp ->
  exists p h1,
    mem_bind (mem_read fields fp) (fun f => Field_Clone f) h = Done (p, h1) /\
    same_live h h1.
Proof.
  intros (f & fs & ty & Hd & Hds & Hty).
  eexists _, (with_clone h f ty). split; [|apply with_clone_live].
  rewrite (mem_bind_eq _ _ h h f (mem_read_eq fields fp h f Hd)).
  apply (Field_Clone_runs h f fs ty Hds Hty).
Qed.

Lemma Field_Forward_runs (h : Heap) (fp : ptr) :
  declared_field h fp ->
  exists (u : unit) h1, Field_Forward fp h = Done (u, h1) /\ same_live h h1.
Proof.
  intros (f & fs & ty & Hd & Hds & Hty).
  assert (Hrun : exists h1, Field_Forward fp h = Done (tt, h1)).
  { unfold Field_Forward.
    rewrite (mem_bind_eq _ _ h h f (mem_read_eq fields fp h f Hd)).
    rewrite (mem_bind_eq _ _ h _ _ (Field_Clone_runs h f fs ty Hds Hty)).
    apply deref_Done in Hd as (l & -> & _). eexists. reflexivity. }
  destruct Hrun as [h1 Hrun]. exists tt, h1. split; [exact Hrun|].
  eapply Field_Forward_live, Hrun.
Qed.

Lemma mem_map_runs {A B} (D : Heap -> A -> Prop) (step : A -> Mem B) (l : list A) :
  (forall h h' a, same_live h h' -> D h a -> D h' a) ->
  (forall h a, D h a -> exists b h1, step a h = Done (b, h1) /\ same_live h h1) ->
  forall h, Forall (D h) l ->
    exists bs h', mem_map step l h = Done (bs, h') /\ same_live h h'.
Proof.
  intros Hmono Hstep. induction l as [|a l IH]; intros h Hall.
  - exists [], h. split; [reflexivity | apply same_live_refl].
  - apply Forall_cons in Hall as [Ha Hall].
    destruct (Hstep h a Ha) as (b & h1 & Hrun & Hlive).
    destruct (IH h1) as (bs & h2 & Hruns & Hlive2).
    { eapply Forall_impl; [exact Hall|]. intros x. apply Hmono, Hlive. }
    exists (b :: bs), h2. split; [|eapply same_live_trans; eassumption].
    cbn [mem_map]. rewrite (mem_bind_eq _ _ h h1 b Hrun).
    rewrite (mem_bind_eq _ _ h1 h2 bs Hruns). reflexivity.
Qed.

(** X25: Forward does not panic on a declared collection: when the
    collection, its schema, and every field with its field schema and type
    are in the store, Forward returns, leaving the live state as it was. *)
Theorem Collection_Forward_runs
    (l : nat) (h : Heap) (c : Collection) (s : CollectionSchema) :
  collections h !! l = Some c ->
  deref (cschemas h) (Collection_Schema c) = Done s ->
  Forall (declared_field h) (Fields s) ->
  exists h', Collection_Forward (Some l) h = Done (tt, h') /\ same_live h h'.
Proof.
  intros Hc Hs Hdecl.
  assert (Hrun : exists h', Collection_Forward (Some l) h = Done (tt, h')).
  { destruct (mem_map_runs declared_field
                (fun field => mem_bind (mem_read fields field) (fun f => Field_Clone f))
                (Fields s) declared_field_live clone_step_runs h Hdecl)
      as (ps & h1 & Hloop & Hlive1).
    unfold Collection_Forward.
    assert (Hdc : deref (collections h) (Some l) = Done c) by (cbn; rewrite Hc; reflexivity).
    rewrite (mem_bind_eq _ _ h h c (mem_read_eq collections _ h c Hdc)).
    assert (Hclone : exists cl h3,
               Collection_Clone c h = Done (cl, h3) /\
               cschemas h3 = cschemas h1 ++ [s] /\
               fields h3 = fields h1 /\ fschemas h3 = fschemas h1).
    { unfold Collection_Clone.
      rewrite (mem_bind_eq _ _ h h s (mem_read_eq cschemas _ h s Hs)).
      unfold CollectionSchema_Clone. cbn beta zeta.
      unfold mem_bind at 1. rewrite (mem_bind_eq _ _ h h1 ps Hloop).
      eexists _, _. split; [reflexivity|]. cbn. auto. }
    destruct Hclone as (cl & h3 & Hclone & Hcs3 & Hf3 & Hfs3).
    rewrite (mem_bind_eq _ _ h h3 cl Hclone).
    unfold mem_bind at 1.
    match goal with
    | |- context [set_Collection l ?c' h3] => set (h4 := set_Collection l c' h3)
    end.
    assert (Hs4 : deref (cschemas h4) (Collection_Schema c) = Done s).
    { unfold h4. cbn. rewrite Hcs3. apply deref_Done in Hs as (sl & -> & Hsl). cbn.
      destruct Hlive1 as (_ & Hcs & _).
      rewrite (lookup_app_l_Some _ _ _ _ (Hcs sl s Hsl)). reflexivity. }
    rewrite (mem_bind_eq _ _ h4 h4 s (mem_read_eq cschemas _ h4 s Hs4)).
    assert (Hdecl4 : Forall (declared_field h4) (Fields s)).
    { eapply Forall_impl; [exact Hdecl|]. intros fp Hfp.
      apply (declared_field_live h h1 fp Hlive1) in Hfp.
      destruct Hfp as (f & fs & ty & H1 & H2 & H3). exists f, fs, ty.
      unfold h4. cbn. rewrite Hf3, Hfs3. auto. }
    destruct (mem_map_runs declared_field Field_Forward (Fields s)
                declared_field_live Field_Forward_runs h4 Hdecl4) as (us & h5 & Hfw & _).
    rewrite (mem_bind_eq _ _ h4 h5 us Hfw). eexists. reflexivity. }
  destruct Hrun as [h' Hrun]. exists h'. split; [exact Hrun|].
  eapply Collection_Forward_live, Hrun.
Qed.

End ForwardRecords.

Lemma Collection_Forward_snapshots_fields_witness :
  let h := heap_after users_decl empty_heap in
  let h' := heap_after users_fwd empty_heap in
  Forall (live_field h) [Some 0%nat; Some 1%nat] /\
  Collection_Forward (Some 0%nat) h = Done (tt, h') /\
  Forall (fun fp => exists l0, fp = Some l0 /\ snapshotted (length (fields h)) l0 h')
         [Some 0%nat; Some 1%nat].
Proof.
  intros h h'.
  assert (Hlive : Forall (live_field h) [Some 0%nat; Some 1%nat]).
  { repeat constructor.
    - exists 0%nat. split; [reflexivity | cbn; lia].
    - exists 1%nat. split; [reflexivity | cbn; lia]. }
  split; [exact Hlive|]. split; [vm_compute; reflexivity|].
  apply (Collection_Forward_snapshots_fields 0 h
           {| Collection_original := None; Collection_Name := "users";
              Collection_Schema := Some 0%nat |}
           {| Fields := [Some 0%nat; Some 1%nat]; ViewFilter := None; AllowCreate := None;
              AllowUpdate := None; AllowDelete := None |} tt h');
    [reflexivity | reflexivity | exact Hlive | vm_compute; reflexivity].
Defined.

Lemma Collection_Forward_runs_witness :
  let h := heap_after users_decl empty_heap in
  Forall (declared_field h) [Some 0%nat; Some 1%nat] /\
  exists h', Collection_Forward (Some 0%nat) h = Done (tt, h') /\ same_live h h'.
Proof.
  intros h.
  assert (Hdecl : Forall (declared_field h) [Some 0%nat; Some 1%nat]).
  { repeat constructor.
    - exists {| Field_original := None; Field_Name := "id"; Field_Schema := Some 0%nat |},
             {| FieldSchema_Type := Some id_primary |}, id_primary. repeat split.
    - exists {| Field_original := None; Field_Name := "email"; Field_Schema := Some 1%nat |},
             {| FieldSchema_Type := Some text_plain |}, text_plain. repeat split. }
  split; [exact Hdecl|].
  apply (Collection_Forward_runs 0 h
           {| Collection_original := None; Collection_Name := "users";
              Collection_Schema := Some 0%nat |}
           {| Fields := [Some 0%nat; Some 1%nat]; ViewFilter := None; AllowCreate := None;
              AllowUpdate := None; AllowDelete := None |});
    [reflexivity | reflexivity | exact Hdecl].
Defined.

(** ** Migrations *)

(** X26: RegisterMigration works on an App whose map is still nil, makes
    the migration the one registered under its name (replacing an earlier
    one), leaves every other name as it was, and does not touch the
    services. *)
Theorem RegisterMigration_registered
    (app : App) (name name' : string) (migration : Migration) :
  registered (RegisterMigration app name migration) name'
  = (if decide (name' = name) then Some migration else registered app name') /\
  DatabaseService (RegisterMigration app name migration) = DatabaseService app /\
  HttpService (RegisterMigration app name migration) = HttpService app.
Proof.
  split; [|split; reflexivity].
  unfold registered, RegisterMigration. cbn.
  destruct (decide (name' = name)) as [->|Hne].
  - apply lookup_insert_eq.
  - rewrite lookup_insert_ne by congruence.
    destruct (Migrations app); [reflexivity | apply lookup_empty].
Qed.

(** ** Column definitions and validation *)

Lemma append_empty_r (a : string) : a +:+ "" = a.
Proof. induction a as [|c a IH]; [reflexivity|]. rewrite append_cons, IH. reflexivity. Qed.

Lemma accepts_absent_nullable (lib : GoLib) (ty : FieldType) :
  (forall e, ty = Enum e -> enum_default_valid e) ->
  accepts_absent lib ty = FieldType_nullable ty.
Proof.
  intros He. unfold accepts_absent.
  destruct ty as [ft|ft|ft|ft|ft|ft|ft|ft]; cbn.
  - unfold FieldTypeId.ValidateValue. cbn.
    destruct (FieldTypeId.Nullable ft || FieldTypeId.PrimaryKey ft); reflexivity.
  - unfold FieldTypeText.ValidateValue. cbn.
    destruct (FieldTypeText.Nullable ft); cbn;
      [destruct (FieldTypeText.CreateDefaultValue ft)|]; reflexivity.
  - unfold FieldTypeInt.ValidateValue. cbn.
    destruct (FieldTypeInt.Nullable ft); cbn;
      [destruct (FieldTypeInt.CreateDefaultValue ft)|]; reflexivity.
  - unfold FieldTypeFloat.ValidateValue. cbn.
    destruct (FieldTypeFloat.Nullable ft); cbn;
      [destruct (FieldTypeFloat.CreateDefaultValue ft)|]; reflexivity.
  - unfold FieldTypeBool.ValidateValue. cbn.
    destruct (FieldTypeBool.Nullable ft); cbn;
      [destruct (FieldTypeBool.CreateDefaultValue ft)|]; reflexivity.
  - unfold FieldTypeDateTime.ValidateValue. cbn.
    destruct (FieldTypeDateTime.Nullable ft); cbn;
      [destruct (FieldTypeDateTime.CreateDefaultValue ft)|]; reflexivity.
  - specialize (He ft eq_refl). unfold enum_default_valid in He.
    unfold FieldTypeEnum.ValidateValue, FieldTypeEnum.validate_input.
    destruct (FieldTypeEnum.CreateDefaultValue ft) as [g|].
    + rewrite He. cbn. destruct (FieldTypeEnum.Nullable ft); cbn; [|reflexivity].
      destruct (String.length (g tt)); reflexivity.
    + cbn. destruct (FieldTypeEnum.Nullable ft); reflexivity.
  - unfold FieldTypeSingleRelation.ValidateValue, FieldTypeId.ValidateValue. cbn.
    rewrite orb_false_r. destruct (FieldTypeSingleRelation.Nullable ft); reflexivity.
Qed.

(** X27: the column definition agrees with validation on nullability: for
    every catalog type (an Enum's default being one of its values), the
    definition is the column name, the native type, then NULL exactly when
    ValidateValue lets an absent input through and NOT NULL otherwise, then
    the primary-key or foreign-key clause. *)
Theorem columnSQL_nullability_agrees (lib : GoLib) (column : string) (ty : FieldType) :
  (forall e, ty = Enum e -> enum_default_valid e) ->
  columnSQL column (Some ty)
  = Done (column +:+ " " +:+ native_type ty
          +:+ (if accepts_absent lib ty then " NULL" else " NOT NULL")
          +:+ column_suffix ty).
Proof.
  intros He. rewrite (accepts_absent_nullable lib ty He).
  destruct ty as [ft|ft|ft|ft|ft|ft|ft|ft]; cbn [columnSQL FieldType_nullable];
    unfold withNullConstraint.
  - destruct (FieldTypeId.Nullable ft || FieldTypeId.PrimaryKey ft);
      cbn [column_suffix]; destruct (FieldTypeId.PrimaryKey ft);
      rewrite ?append_assoc; reflexivity.
  - destruct (FieldTypeText.Nullable ft); rewrite ?append_assoc; reflexivity.
  - destruct (FieldTypeInt.Nullable ft); rewrite ?append_assoc; reflexivity.
  - destruct (FieldTypeFloat.Nullable ft); rewrite ?append_assoc; reflexivity.
  - destruct (FieldTypeBool.Nullable ft); rewrite ?append_assoc; reflexivity.
  - destruct (FieldTypeDateTime.Nullable ft); rewrite ?append_assoc; reflexivity.
  - destruct (FieldTypeEnum.Nullable ft); rewrite ?append_assoc; reflexivity.
  - cbn [column_suffix].
    destruct (FieldTypeSingleRelation.Nullable ft);
      destruct (FieldTypeSingleRelation.CascadeDelete ft);
      rewrite ?append_assoc, ?append_empty_r; reflexivity.
Qed.

Lemma columnSQL_nullability_agrees_witness :
  (forall e, id_primary = Enum e -> enum_default_valid e) /\
  accepts_absent plain_lib id_primary = true /\
  columnSQL "id" (Some id_primary) = Done "id TEXT NULL PRIMARY KEY".
Proof.
  split; [intros e H; discriminate H|]. split; [reflexivity|].
  apply (columnSQL_nullability_agrees plain_lib "id" id_primary).
  intros e H; discriminate H.
Defined.

(** ** Reconciliation of a new collection, continued *)

Lemma field_column_quiet (h : Heap) (fp : ptr) (log : list string) :
  (exists col, field_column h fp log = (log, Continue col)) \/
  field_column h fp log = (log, Panicked).
Proof.
  unfold field_column, tx_bind, tx_lift.
  destruct (deref (fields h) fp) as [f|]; [|right; reflexivity].
  destruct (deref (fschemas h) (Field_Schema f)) as [fs|]; [|right; reflexivity].
  destruct (columnSQL (Field_Name f) (FieldSchema_Type fs)); [left; eexists|right];
    reflexivity.
Qed.

Lemma field_column_undeclared (h : Heap) (fp : ptr) (log : list string) :
  ~ declared_field h fp -> field_column h fp log = (log, Panicked).
Proof.
  intros Hnd. unfold field_column, tx_bind, tx_lift.
  destruct (deref (fields h) fp) as [f|] eqn:Hf; [|reflexivity].
  destruct (deref (fschemas h) (Field_Schema f)) as [fs|] eqn:Hfs; [|reflexivity].
  destruct (FieldSchema_Type fs) as [ty|] eqn:Hty; [|reflexivity].
  exfalso. apply Hnd. exists f, fs, ty. auto.
Qed.

Lemma tx_map_panics {A B} (p : A -> Tx B) (l : list A) (a : A) (log : list string) :
  (forall a log, (exists b, p a log = (log, Continue b)) \/ p a log = (log, Panicked)) ->
  In a l -> p a log = (log, Panicked) ->
  tx_map p l log = (log, Panicked).
Proof.
  intros Hq Hin Hp. induction l as [|x l IH]; [destruct Hin|].
  cbn [tx_map]. unfold tx_bind.
  destruct Hin as [->|Hin].
  - rewrite Hp. reflexivity.
  - destruct (Hq x log) as [(b & ->)| ->]; [|reflexivity].
    rewrite (IH Hin). reflexivity.
Qed.

(** X28: creating a table is all or nothing: when a field of a collection
    without baseline is not declared (a nil or unknown field pointer, a nil
    field schema, or a nil type), SaveCollection panics while deriving the
    columns and executes no statement at all. *)
Theorem SaveCollection_undeclared_field_panics
    (Exec : list string -> string -> error) (h : Heap)
    (collection : Collection) (s : CollectionSchema) (fp : ptr) :
  Collection_original collection = None ->
  deref (cschemas h) (Collection_Schema collection) = Done s ->
  In fp (Fields s) ->
  ~ declared_field h fp ->
  SaveCollection Exec h collection = ([], Panic).
Proof.
  intros Ho Hs Hin Hnd. unfold SaveCollection. rewrite Ho.
  unfold create_table. unfold tx_bind at 1. unfold tx_lift at 1. rewrite Hs.
  unfold tx_bind at 1.
  rewrite (tx_map_panics (field_column h) (Fields s) fp []);
    [reflexivity | apply field_column_quiet | exact Hin
    | apply field_column_undeclared, Hnd].
Qed.

Lemma SaveCollection_undeclared_field_panics_witness :
  let h := Build_Heap [] [{| Fields := [None]; ViewFilter := None; AllowCreate := None;
                             AllowUpdate := None; AllowDelete := None |}] [] [] in
  let c := {| Collection_original := None; Collection_Name := "t";
              Collection_Schema := Some 0%nat |} in
  In None [@None nat] /\
  ~ declared_field h None /\
  SaveCollection Exec_ok h c = ([], Panic).
Proof.
  intros h c.
  assert (Hnd : ~ declared_field h None).
  { intros (f & fs & ty & Hf & _). discriminate Hf. }
  split; [cbn; auto|]. split; [exact Hnd|].
  apply (SaveCollection_undeclared_field_panics Exec_ok h c
           {| Fields := [None]; ViewFilter := None; AllowCreate := None;
              AllowUpdate := None; AllowDelete := None |} None);
    [reflexivity | reflexivity | cbn; auto | exact Hnd].
Defined.

(** ** Identifiers: letter case *)




